(** * Moneez: categorisation, ingestion and stacking of bank payments

    A shallow embedding of [moneez.py].  Python values are modelled as the
    program has them: attributes of a [Payment] start as [None] (here
    [option]), the two module-level containers [ALL_PAYMENTS] and
    [PAYMENTS_BY_YEAR] form an explicit state that survives an abort,
    [sys.exit] and uncaught exceptions are values of type [abort].

    Conventions of the model:
    - text is ASCII ([string] of 8-bit characters); [str.lower], [str.strip],
      [\W] and [\d] are the ASCII fragments of the Python functions;
    - amounts are exact rationals ([Qc]): [float(s)] denotes the decimal
      number written in [s]; binary64 rounding and the literals [inf] and
      [nan] are outside the model. *)

From Stdlib Require Import ZArith QArith Qcanon Qcabs Ascii String Lia.
From Stdlib Require Import DecimalString Sorted.
From stdpp Require Import base numbers option strings gmap list.

Local Open Scope Z_scope.

(** ** Results of fallible code *)

Inductive exception : Type :=
  | AttributeError | ValueError | TypeError | IndexError | KeyError
  | FileNotFoundError.

(** How a run ends early: [sys.exit(status)] after a printed message, or an
    exception that nothing catches. *)
Inductive abort : Type :=
  | SysExit (status : option Z) (message : string)
  | Raised (e : exception).

(** The exit status the operating system sees.  [sys.exit()] without an
    argument is status 0; an uncaught exception is status 1. *)
Definition exit_status (a : abort) : Z :=
  match a with
  | SysExit None _ => 0
  | SysExit (Some n) _ => n mod 256
  | Raised _ => 1
  end.

Inductive result (A : Type) : Type :=
  | Ok (a : A)
  | Abort (e : abort).
Arguments Ok {A} a.
Arguments Abort {A} e.

Global Instance result_ret : MRet result := λ A a, Ok a.
Global Instance result_bind : MBind result := λ A B k r,
  match r with
  | Ok a => k a
  | Abort e => Abort e
  end.

Definition is_ok {A} (r : result A) : bool :=
  match r with Ok _ => true | Abort _ => false end.

(** ** The Python library functions the program calls *)

(** A [datetime] at midnight: [strptime] with a date-only format leaves
    the time fields at zero. *)
Record datetime : Type := mkDatetime { year : Z; month : Z; day : Z }.

Module Py.

Definition is_upper (c : ascii) : bool :=
  let n := nat_of_ascii c in (65 <=? n)%nat && (n <=? 90)%nat.

Definition lower_char (c : ascii) : ascii :=
  if is_upper c then ascii_of_nat (nat_of_ascii c + 32) else c.

(** [s.lower()] *)
Fixpoint lower (s : string) : string :=
  match s with
  | EmptyString => EmptyString
  | String c s' => String (lower_char c) (lower s')
  end.

(** [s.startswith(p)] *)
Fixpoint startswith (p s : string) : bool :=
  match p, s with
  | EmptyString, _ => true
  | String _ _, EmptyString => false
  | String a p', String b s' => bool_decide (a = b) && startswith p' s'
  end.

(** [kw in s] for strings: [kw] occurs somewhere in [s]. *)
Fixpoint contains (kw s : string) : bool :=
  startswith kw s ||
  match s with
  | EmptyString => false
  | String _ s' => contains kw s'
  end.


(** ASCII whitespace as [str.strip] sees it ([str.isspace]). *)
Definition is_space (c : ascii) : bool :=
  let n := nat_of_ascii c in
  ((9 <=? n) && (n <=? 13) || (28 <=? n) && (n <=? 32))%nat.

Fixpoint lstrip (s : string) : string :=
  match s with
  | EmptyString => EmptyString
  | String c s' => if is_space c then lstrip s' else s
  end.

Fixpoint rstrip (s : string) : string :=
  match s with
  | EmptyString => EmptyString
  | String c s' =>
      match rstrip s' with
      | EmptyString => if is_space c then EmptyString else String c EmptyString
      | r => String c r
      end
  end.

(** [s.strip()] *)
Definition strip (s : string) : string := rstrip (lstrip s).

(** [s.replace(old, new)] for one-character [old] and [new]. *)
Fixpoint replace (old new : ascii) (s : string) : string :=
  match s with
  | EmptyString => EmptyString
  | String c s' =>
      String (if bool_decide (c = old) then new else c) (replace old new s')
  end.

(** The scan of [s.split(sep)]: [skip] characters of a separator found
    earlier are still to be passed over, [cur] is the piece being read. *)
Fixpoint split_scan (sep : string) (s : string) (skip : nat) (cur : string)
    : list string :=
  match s with
  | EmptyString => [cur]
  | String c s' =>
      match skip with
      | S k => split_scan sep s' k cur
      | O =>
          if startswith sep s
          then cur :: split_scan sep s' (String.length sep - 1) EmptyString
          else split_scan sep s' 0 (cur +:+ String c EmptyString)
      end
  end.

(** [s.split(sep)]; an empty separator is a [ValueError]. *)
Definition split (sep s : string) : result (list string) :=
  match sep with
  | EmptyString => Abort (Raised ValueError)
  | _ => Ok (split_scan sep s 0 EmptyString)
  end.

Definition is_digit (c : ascii) : bool :=
  let n := nat_of_ascii c in (48 <=? n)%nat && (n <=? 57)%nat.

Definition digit_val (c : ascii) : Z := Z.of_nat (nat_of_ascii c) - 48.

(** [\w]: letters, digits and the underscore; characters above 127 count
    as word characters. *)
Definition is_word (c : ascii) : bool :=
  let n := nat_of_ascii c in
  (is_digit c || (65 <=? n) && (n <=? 90) || (97 <=? n) && (n <=? 122)
   || (n =? 95) || (128 <=? n))%nat.

(** [re.sub("\W+", " ", s)]: every maximal run of non-word characters
    becomes one space.  [in_run] says that the run was already replaced. *)
Fixpoint sub_nonword (s : string) (in_run : bool) : string :=
  match s with
  | EmptyString => EmptyString
  | String c s' =>
      if is_word c then String c (sub_nonword s' false)
      else if in_run then sub_nonword s' true
      else String " " (sub_nonword s' true)
  end.

(** *** [float(s)] on decimal literals *)

(** Whitespace that [float] strips: the C locale's [isspace]. *)
Definition is_cspace (c : ascii) : bool :=
  let n := nat_of_ascii c in ((9 <=? n) && (n <=? 13) || (n =? 32))%nat.

Fixpoint lstrip_c (s : string) : string :=
  match s with
  | EmptyString => EmptyString
  | String c s' => if is_cspace c then lstrip_c s' else s
  end.

Fixpoint rstrip_c (s : string) : string :=
  match s with
  | EmptyString => EmptyString
  | String c s' =>
      match rstrip_c s' with
      | EmptyString => if is_cspace c then EmptyString else String c EmptyString
      | r => String c r
      end
  end.

(** A digit part [digit (["_"] digit)*]: its digits, most significant
    first.  [prev] says that the previous character was a digit. *)
Fixpoint digitpart (s : string) (prev : bool) : option (list Z) :=
  match s with
  | EmptyString => if prev then Some [] else None
  | String c s' =>
      if is_digit c then cons (digit_val c) <$> digitpart s' true
      else if bool_decide (c = "_"%char) && prev then digitpart s' false
      else None
  end.

(** A digit part that may be missing altogether. *)
Definition opt_digitpart (s : string) : option (list Z) :=
  match s with
  | EmptyString => Some []
  | _ => digitpart s false
  end.

Definition digits_value (ds : list Z) : Z :=
  fold_left (λ acc d, 10 * acc + d) ds 0.

(** Cut [s] at the first character satisfying [stop]: the text before
    it, and the text after it when there is such a character. *)
Fixpoint cut (stop : ascii → bool) (s : string) : string * option string :=
  match s with
  | EmptyString => (EmptyString, None)
  | String c s' =>
      if stop c then (EmptyString, Some s')
      else let '(a, b) := cut stop s' in (String c a, b)
  end.

Definition split_sign (s : string) : bool * string :=
  match s with
  | String "-" s' => (true, s')
  | String "+" s' => (false, s')
  | _ => (false, s)
  end.

Definition pow10 (e : Z) : Q :=
  if (0 <=? e)%Z then inject_Z (10 ^ e) else (1 # Z.to_pos (10 ^ (- e)))%Q.

(** Mantissa digits and decimal exponent of an unsigned literal
    [intpart [. fracpart]] or [. fracpart], with an optional
    [e [sign] digitpart]. *)
Definition decimal_parts (s : string) : option (Z * Z) :=
  let '(mant, expo) := cut (λ c, bool_decide (c = "e"%char) || bool_decide (c = "E"%char)) s in
  e ← match expo with
      | None => Some 0
      | Some x =>
          let '(neg, x') := split_sign x in
          ds ← digitpart x' false;
          Some (if neg : bool then - digits_value ds else digits_value ds)
      end;
  let '(ip, fp) := cut (λ c, bool_decide (c = "."%char)) mant in
  match fp with
  | None => ds ← digitpart ip false; Some (digits_value ds, e)
  | Some f =>
      ids ← opt_digitpart ip;
      fds ← opt_digitpart f;
      match ids ++ fds with
      | [] => None
      | ds => Some (digits_value ds, e - Z.of_nat (length fds))
      end
  end.

(** [float(s)]: the number a decimal literal denotes, [ValueError] for
    anything else. *)
Definition float (s : string) : result Qc :=
  let '(neg, body) := split_sign (rstrip_c (lstrip_c s)) in
  match decimal_parts body with
  | Some (m, e) =>
      Ok (Q2Qc (inject_Z (if neg : bool then - m else m) * pow10 e))
  | None => Abort (Raised ValueError)
  end.

(** *** [datetime.strptime(s, "%d.%m.%Y")] *)

Definition two_digits (a b : ascii) : option Z :=
  if is_digit a && is_digit b then Some (10 * digit_val a + digit_val b)
  else None.

(** [%d], as [_strptime] matches it: [3[0-1]|[1-2]\d|0[1-9]|[1-9]| [1-9]]. *)
Definition directive_d (tok : string) : option Z :=
  match tok with
  | String a EmptyString =>
      if is_digit a && (1 <=? digit_val a) then Some (digit_val a) else None
  | String a (String b EmptyString) =>
      if bool_decide (a = " "%char) then
        if is_digit b && (1 <=? digit_val b) then Some (digit_val b) else None
      else
        v ← two_digits a b;
        if (1 <=? v) && (v <=? 31) then Some v else None
  | _ => None
  end.

(** [%m]: [1[0-2]|0[1-9]|[1-9]]. *)
Definition directive_m (tok : string) : option Z :=
  match tok with
  | String a EmptyString =>
      if is_digit a && (1 <=? digit_val a) then Some (digit_val a) else None
  | String a (String b EmptyString) =>
      v ← two_digits a b;
      if (1 <=? v) && (v <=? 12) then Some v else None
  | _ => None
  end.

(** [%Y]: exactly four digits. *)
Definition directive_Y (tok : string) : option Z :=
  match tok with
  | String a (String b (String c (String d EmptyString))) =>
      hi ← two_digits a b;
      lo ← two_digits c d;
      Some (100 * hi + lo)
  | _ => None
  end.

Definition is_leap (y : Z) : bool :=
  (y mod 4 =? 0) && (negb (y mod 100 =? 0) || (y mod 400 =? 0)).

Definition days_in_month (y m : Z) : Z :=
  if m =? 2 then (if is_leap y then 29 else 28)
  else if (m =? 4) || (m =? 6) || (m =? 9) || (m =? 11) then 30
  else 31.

Definition is_dot (c : ascii) : bool := bool_decide (c = "."%char).

(** The day and the month are the texts before the first and the second
    dot, the year is all that follows; a date that does not exist (or the
    year 0000) is a [ValueError] like a text that does not match. *)
Definition strptime (s : string) : result datetime :=
  let parsed :=
    let '(dtok, rest) := cut is_dot s in
    rest ← rest;
    let '(mtok, ytok) := cut is_dot rest in
    ytok ← ytok;
    d ← directive_d dtok;
    m ← directive_m mtok;
    y ← directive_Y ytok;
    if (1 <=? y) && (d <=? days_in_month y m) then Some (mkDatetime y m d)
    else None in
  match parsed with
  | Some dt => Ok dt
  | None => Abort (Raised ValueError)
  end.

End Py.

(** ** Data model *)

(** [class Payment]: every attribute is [None] after [__init__]. *)
Record Payment : Type := mkPayment {
  usage : option string;
  payment_type : option string;
  bic : option string;
  iban : option string;
  name : option string;
  amount : option Qc;
  date : option datetime;
  amount_left : option Qc;
  innate_category : option string;
  category : option string;
  relevant_for_tax : option string
}.

Definition Payment_init : Payment :=
  mkPayment None None None None None None None None None None None.

Definition set_category (p : Payment) (c : option string) : Payment :=
  mkPayment (usage p) (payment_type p) (bic p) (iban p) (name p) (amount p)
            (date p) (amount_left p) (innate_category p) c (relevant_for_tax p).

Definition set_usage (p : Payment) (v : option string) : Payment :=
  mkPayment v (payment_type p) (bic p) (iban p) (name p) (amount p)
            (date p) (amount_left p) (innate_category p) (category p)
            (relevant_for_tax p).

Definition set_payment_type (p : Payment) (v : option string) : Payment :=
  mkPayment (usage p) v (bic p) (iban p) (name p) (amount p)
            (date p) (amount_left p) (innate_category p) (category p)
            (relevant_for_tax p).

Definition set_bic (p : Payment) (v : option string) : Payment :=
  mkPayment (usage p) (payment_type p) v (iban p) (name p) (amount p)
            (date p) (amount_left p) (innate_category p) (category p)
            (relevant_for_tax p).

Definition set_iban (p : Payment) (v : option string) : Payment :=
  mkPayment (usage p) (payment_type p) (bic p) v (name p) (amount p)
            (date p) (amount_left p) (innate_category p) (category p)
            (relevant_for_tax p).

Definition set_name (p : Payment) (v : option string) : Payment :=
  mkPayment (usage p) (payment_type p) (bic p) (iban p) v (amount p)
            (date p) (amount_left p) (innate_category p) (category p)
            (relevant_for_tax p).

Definition set_amount (p : Payment) (v : option Qc) : Payment :=
  mkPayment (usage p) (payment_type p) (bic p) (iban p) (name p) v
            (date p) (amount_left p) (innate_category p) (category p)
            (relevant_for_tax p).

Definition set_date (p : Payment) (v : option datetime) : Payment :=
  mkPayment (usage p) (payment_type p) (bic p) (iban p) (name p) (amount p)
            v (amount_left p) (innate_category p) (category p)
            (relevant_for_tax p).

Definition set_amount_left (p : Payment) (v : option Qc) : Payment :=
  mkPayment (usage p) (payment_type p) (bic p) (iban p) (name p) (amount p)
            (date p) v (innate_category p) (category p)
            (relevant_for_tax p).

Definition set_innate_category (p : Payment) (v : option string) : Payment :=
  mkPayment (usage p) (payment_type p) (bic p) (iban p) (name p) (amount p)
            (date p) (amount_left p) v (category p)
            (relevant_for_tax p).

Definition set_relevant_for_tax (p : Payment) (v : option string) : Payment :=
  mkPayment (usage p) (payment_type p) (bic p) (iban p) (name p) (amount p)
            (date p) (amount_left p) (innate_category p) (category p) v.

(** A JSON object with string values, in the order of the file. *)
Abbreviation odict := (list (string * string)).

Definition odict_keys (d : odict) : list string := d.*1.

(** [d[k]] *)
Definition odict_get (d : odict) (k : string) : option string :=
  snd <$> List.find (λ kv, bool_decide (kv.1 = k)) d.

(** [d[k] = v]: a key already present keeps its place. *)
Fixpoint odict_set (d : odict) (k v : string) : odict :=
  match d with
  | [] => [(k, v)]
  | (k', v') :: d' =>
      if bool_decide (k' = k) then (k', v) :: d' else (k', v') :: odict_set d' k v
  end.

(** One entry of [JSON["input files"]]. *)
Record file_info : Type := mkFileInfo {
  fi_file : string;
  fi_columns : option string;
  fi_rows : option string;
  fi_field_processor : option string
}.

(** The configuration document [JSON]. *)
Record Config : Type := mkConfig {
  known_ibans : gmap string string;      (* JSON["ibans"] *)
  keywords : odict;                      (* JSON["keywords"] *)
  CATEGORY_COLORS : odict;               (* JSON["category colors"] *)
  default_color : option string;         (* JSON["default color"], if present *)
  input_files : list file_info           (* JSON["input files"] *)
}.

(** ** Categoriser *)

Section Categoriser.
Variable cfg : Config.

(** [payment.iban in known_ibans]; a payment without IBAN is no key. *)
Definition iban_category (payment : Payment) : option string :=
  i ← iban payment; known_ibans cfg !! i.

(** [payment.name.lower()]: [None] has no attribute [lower]. *)
Definition lower_attr (a : option string) : result string :=
  match a with
  | Some s => Ok (Py.lower s)
  | None => Abort (Raised AttributeError)
  end.

Definition kw_matches (name usage kw : string) : bool :=
  Py.contains kw name || Py.contains kw usage.

(** The loop [for kw in keywords] over the keys still to visit. *)
Fixpoint keyword_loop (kws : list string) (name usage : string)
    (payment : Payment) : result Payment :=
  match kws with
  | [] => Ok payment
  | kw :: rest =>
      if kw_matches name usage kw then
        match odict_get (keywords cfg) kw with
        | Some c => Ok (set_category payment (Some c))
        | None => Abort (Raised KeyError)
        end
      else keyword_loop rest name usage payment
  end.

Definition associate_category (payment : Payment) : result Payment :=
  let payment := set_category payment (Some "Unknown") in
  match iban_category payment with
  | Some c => Ok (set_category payment (Some c))
  | None =>
      name ← lower_attr (name payment);
      usage ← lower_attr (usage payment);
      keyword_loop (odict_keys (keywords cfg)) name usage payment
  end.

End Categoriser.

(** ** Record parser *)

Definition key_is (key lit : string) : bool := String.eqb key lit.

(** [gls_process_field(payment, key, value)], the [match key] read top to
    bottom.  The messages are the ones printed before [sys.exit]. *)
Definition gls_process_field (payment : Payment) (key value : string)
    : result Payment :=
  if key_is key "Buchungstag" then
    d ← Py.strptime value; Ok (set_date payment (Some d))
  else if key_is key "Name Zahlungsbeteiligter" then
    Ok (set_name payment (Some value))
  else if key_is key "IBAN Zahlungsbeteiligter" then
    Ok (set_iban payment (Some value))
  else if key_is key "BIC (SWIFT-Code) Zahlungsbeteiligter" then
    Ok (set_bic payment (Some value))
  else if key_is key "Buchungstext" then
    Ok (set_payment_type payment (Some value))
  else if key_is key "Verwendungszweck" then
    Ok (set_usage payment (Some (Py.sub_nonword value false)))
  else if key_is key "Betrag" then
    a ← Py.float (Py.replace "," "." value); Ok (set_amount payment (Some a))
  else if key_is key "Waehrung" then
    if negb (String.eqb value "EUR")
    then Abort (SysExit (Some (-1)) ("Unknown currency: " +:+ value))
    else Ok payment
  else if key_is key "Saldo nach Buchung" then
    a ← Py.float (Py.replace "," "." value);
    Ok (set_amount_left payment (Some a))
  else if key_is key "Bemerkung" then
    if negb (String.eqb (Py.strip value) "")
    then Abort (SysExit None ("Wat " +:+ value))
    else Ok payment
  else if key_is key "Kategorie" then
    Ok (set_innate_category payment (Some value))
  else if key_is key "Steuerrelevant" then
    Ok (set_relevant_for_tax payment (Some value))
  else if key_is key "Glaeubiger ID" then Ok payment
  else if key_is key "Mandatsreferenz" then Ok payment
  else if key_is key "Valutadatum" then Ok payment
  else if key_is key "Bezeichnung Auftragskonto"
          || key_is key "IBAN Auftragskonto"
          || key_is key "BIC Auftragskonto"
          || key_is key "Bankname Auftragskonto" then Ok payment
  else Abort (SysExit (Some (-1)) ("Unknown key: " +:+ key)).

(** What the variable [field_processor] holds when [process_csv] is
    called: the function [gls_process_field], or still the string of the
    configuration, which cannot be called. *)
Inductive field_processor : Type :=
  | FP_gls
  | FP_str (name : string).

Definition call_field_processor (fp : field_processor) (payment : Payment)
    (key value : string) : result Payment :=
  match fp with
  | FP_gls => gls_process_field payment key value
  | FP_str _ => Abort (Raised TypeError)
  end.

(** ** The two module-level containers *)

Record state : Type := mkState {
  ALL_PAYMENTS : list Payment;
  PAYMENTS_BY_YEAR : gmap Z (list (list Payment))
}.

Definition initial_state : state := mkState [] ∅.

(** [defaultdict(lambda: [[] for _ in range(12)])]: reading a year that is
    missing yields twelve empty buckets. *)
Definition year_buckets (by_year : gmap Z (list (list Payment))) (y : Z)
    : list (list Payment) :=
  default (replicate 12 []) (by_year !! y).

(** A Python list index: negative indices count from the end. *)
Definition py_index (len : nat) (i : Z) : result nat :=
  if (0 <=? i) && (i <? Z.of_nat len) then Ok (Z.to_nat i)
  else if (- Z.of_nat len <=? i) && (i <? 0) then Ok (Z.to_nat (Z.of_nat len + i))
  else Abort (Raised IndexError).

(** [PAYMENTS_BY_YEAR[year][month - 1].append(p)]; looking the year up
    creates its entry. *)
Definition bucket_append (by_year : gmap Z (list (list Payment)))
    (y m : Z) (p : Payment) : gmap Z (list (list Payment)) * result unit :=
  let months := year_buckets by_year y in
  match py_index (length months) (m - 1) with
  | Ok i => (<[y := alter (λ b, b ++ [p]) i months]> by_year, Ok ())
  | Abort e => (<[y := months]> by_year, Abort e)
  end.

Section Ingestion.
Variable cfg : Config.
(** The text of the files, by path. *)
Variable fs : gmap string string.

(** The second loop of [process_payments]. *)
Fixpoint bucket_loop (payments : list Payment) (st : state)
    : state * result unit :=
  match payments with
  | [] => (st, Ok ())
  | p :: rest =>
      match date p with
      | None => (st, Abort (Raised AttributeError))
      | Some d =>
          let '(by_year, r) :=
            bucket_append (PAYMENTS_BY_YEAR st) (year d) (month d) p in
          let st := mkState (ALL_PAYMENTS st) by_year in
          match r with
          | Ok _ => bucket_loop rest st
          | Abort e => (st, Abort e)
          end
      end
  end.

Definition process_payments (payments : list Payment) (st : state)
    : state * result unit :=
  match mapM (associate_category cfg) payments with
  | Abort e => (st, Abort e)
  | Ok payments =>
      let st := mkState (ALL_PAYMENTS st ++ payments) (PAYMENTS_BY_YEAR st) in
      bucket_loop payments st
  end.

(** [for index, value in enumerate(row): kv[keys[index]] = value] *)
Fixpoint key_row (keys : list string) (index : nat) (row : list string)
    (kv : odict) : result odict :=
  match row with
  | [] => Ok kv
  | value :: rest =>
      match keys !! index with
      | Some k => key_row keys (S index) rest (odict_set kv k value)
      | None => Abort (Raised IndexError)
      end
  end.

(** [for key, value in row.items(): field_processor(payment, key, value)] *)
Fixpoint process_row (fp : field_processor) (payment : Payment)
    (items : odict) : result Payment :=
  match items with
  | [] => Ok payment
  | (key, value) :: rest =>
      payment ← call_field_processor fp payment key value;
      process_row fp payment rest
  end.

Definition read_text (file : string) : result string :=
  match fs !! file with
  | Some text => Ok text
  | None => Abort (Raised FileNotFoundError)
  end.

(** The rows of the file as dictionaries, header names to values. *)
Definition keyed_rows (file col_sep row_sep : string) : result (list odict) :=
  text ← read_text file;
  rows ← Py.split row_sep (Py.strip text);
  rows ← mapM (Py.split col_sep) rows;
  match rows with
  | [] => Abort (Raised IndexError)
  | keys :: rows => mapM (λ row, key_row keys 0 row []) rows
  end.

(** Everything [process_csv] does before it calls [process_payments]. *)
Definition parse_csv (file col_sep row_sep : string) (fp : field_processor)
    : result (list Payment) :=
  rows_keyed ← keyed_rows file col_sep row_sep;
  mapM (process_row fp Payment_init) rows_keyed.

Definition process_csv (file col_sep row_sep : string) (fp : field_processor)
    (st : state) : state * result unit :=
  match parse_csv file col_sep row_sep fp with
  | Ok payments => process_payments payments st
  | Abort e => (st, Abort e)
  end.

(** The [match field_processor]: an unknown name is reported on the
    terminal and stays in the variable. *)
Definition resolve_field_processor (name : string) : field_processor :=
  if String.eqb name "gls" then FP_gls else FP_str name.

Definition newline : string := String (ascii_of_nat 10) EmptyString.

Fixpoint process_files (files : list file_info) (st : state)
    : state * result unit :=
  match files with
  | [] => (st, Ok ())
  | info :: rest =>
      let col_sep := default ";" (fi_columns info) in
      let row_sep := default newline (fi_rows info) in
      let field_processor := default "gls" (fi_field_processor info) in
      let field_processor := resolve_field_processor field_processor in
      match process_csv (fi_file info) col_sep row_sep field_processor st with
      | (st, Ok _) => process_files rest st
      | (st, Abort e) => (st, Abort e)
      end
  end.

Definition process_all_input_files (st : state) : state * result unit :=
  process_files (input_files cfg) st.

End Ingestion.

(** ** Stacking layout engine *)

(** One call [ax.bar(x, height, bottom=bottom, color=color)]. *)
Record bar : Type := mkBar {
  bar_x : Z;
  bar_height : Qc;
  bar_bottom : Qc;
  bar_color : string
}.

(** [f"C{i}"] *)
Definition cycle_color (i : nat) : string :=
  "C" +:+ NilEmpty.string_of_uint (Nat.to_uint i).

(** [sum(...)] over the amounts of [ps], from the accumulator on; adding
    [None] is a [TypeError]. *)
Fixpoint sum_amounts (ps : list Payment) (acc : Qc) : result Qc :=
  match ps with
  | [] => Ok acc
  | p :: rest =>
      match amount p with
      | Some a => sum_amounts rest (acc + a)%Qc
      | None => Abort (Raised TypeError)
      end
  end.

(** [sum(p.amount for p in bucket if p.category == category)] *)
Definition category_sum (bucket : list Payment) (cat : option string)
    : result Qc :=
  sum_amounts (filter (λ p, category p = cat) bucket) 0%Qc.

(** The loop over [enumerate(categories)] for one month, from position
    [index] on.  Besides the bars it yields the last values of
    [bottom_positives] and [top_negatives]. *)
Fixpoint category_loop (x : Z) (bucket : list Payment)
    (categories : list (option string)) (cat_colors : list string)
    (index : nat) (bottom_positives top_negatives : Qc)
    : result (list bar * Qc * Qc) :=
  match categories with
  | [] => Ok ([], bottom_positives, top_negatives)
  | cat :: rest =>
      Σ ← category_sum bucket cat;
      let bottom :=
        if decide (0 ≤ Σ)%Qc then bottom_positives else top_negatives in
      color ← match cat_colors !! index with
              | Some c => Ok c
              | None => Abort (Raised IndexError)
              end;
      let b := mkBar x Σ bottom color in
      '(bars, bp, tn) ←
        (if decide (0 ≤ Σ)%Qc
         then category_loop x bucket rest cat_colors (S index)
                (bottom_positives + Σ)%Qc top_negatives
         else category_loop x bucket rest cat_colors (S index)
                bottom_positives (top_negatives + Σ)%Qc);
      Ok (b :: bars, bp, tn)
  end.

(** The body of [for month in range(12)]. *)
Definition month_layout (month : nat) (bucket : list Payment)
    (categories : list (option string)) (cat_colors : list string)
    : result (list bar * Qc * Qc) :=
  category_loop (Z.of_nat month + 1) bucket categories cat_colors 0 0%Qc 0%Qc.

(** [payments[month]] *)
Definition month_bucket (payments : list (list Payment)) (month : nat)
    : result (list Payment) :=
  match payments !! month with
  | Some b => Ok b
  | None => Abort (Raised IndexError)
  end.

(** The configured colours, written over the default ones; a colour for a
    category that is not in the list only prints a warning. *)
Fixpoint assign_colors (category_colors : odict)
    (categories : list (option string)) (cat_colors : list string)
    : list string :=
  match category_colors with
  | [] => cat_colors
  | (cat, color) :: rest =>
      let cat_colors :=
        match list_find (λ c, c = Some cat) categories with
        | Some (i, _) => <[i := color]> cat_colors
        | None => cat_colors
        end in
      assign_colors rest categories cat_colors
  end.

Section Layout.
(** [list(set(xs))]: the elements of [xs] without repetition, in an order
    the program does not control. *)
Variable list_set : list (option string) → list (option string).

Definition discovered_categories (payments : list (list Payment))
    : result (list (option string)) :=
  buckets ← mapM (month_bucket payments) (seq 0 12);
  Ok (list_set (category <$> concat buckets)).

Definition initial_colors (color_default : option string) (n : nat)
    : list string :=
  (λ i, match color_default with
        | None => cycle_color i
        | Some c => c
        end) <$> seq 0 n.

(** The bars of the months [month], [month + 1], ... of [months]. *)
Fixpoint months_loop (months : list nat) (payments : list (list Payment))
    (categories : list (option string)) (cat_colors : list string)
    : result (list bar) :=
  match months with
  | [] => Ok []
  | month :: rest =>
      bucket ← month_bucket payments month;
      '(bars, _, _) ← month_layout month bucket categories cat_colors;
      more ← months_loop rest payments categories cat_colors;
      Ok (bars ++ more)
  end.

(** [overview_year]: the bars in the order they are drawn.  The title,
    the legend, the hover labels and the pause between bars belong to the
    rendering library and are left out. *)
Definition overview_year (year : Z) (payments : list (list Payment))
    (category_colors : odict) (color_default : option string)
    : result (list bar) :=
  categories ← discovered_categories payments;
  let cat_colors := initial_colors color_default (length categories) in
  let cat_colors := assign_colors category_colors categories cat_colors in
  months_loop (seq 0 12) payments categories cat_colors.

(** [show_year(year)] *)
Definition show_year (cfg : Config) (year : Z) (st : state)
    : result (list bar) :=
  overview_year year (year_buckets (PAYMENTS_BY_YEAR st) year)
    (CATEGORY_COLORS cfg) (default_color cfg).

End Layout.

(** The bars drawn over month [month] (0-based). *)
Definition bars_of_month (month : nat) (bars : list bar) : list bar :=
  filter (λ b, bar_x b = Z.of_nat month + 1) bars.

Definition sum_Qc (l : list Qc) : Qc := foldr Qcplus 0%Qc l.


(** ** Vocabulary of the statements *)

(** Every category name of the two lookup tables is a non-empty string. *)
Definition all_categories_nonempty (cfg : Config) : bool :=
  forallb (λ c, negb (String.eqb c ""))
          ((map_to_list (known_ibans cfg)).*2 ++ (keywords cfg).*2).


(** The sum of the amounts of category [cat] in a bucket, for a bucket
    whose amounts are all set. *)
Definition category_total (bucket : list Payment) (cat : option string) : Qc :=
  sum_Qc (omap amount (filter (λ p, category p = cat) bucket)).


(** Height and bottom of each bar, without the colour. *)
Definition geometry (bars : list bar) : list (Qc * Qc) :=
  (λ b, (bar_height b, bar_bottom b)) <$> bars.


(** The stacking of the loop over the categories, on the sums alone. *)
Fixpoint stack (sums : list Qc) (bottom_positives top_negatives : Qc)
    : list (Qc * Qc) * Qc * Qc :=
  match sums with
  | [] => ([], bottom_positives, top_negatives)
  | Σ :: rest =>
      let bottom :=
        if decide (0 ≤ Σ)%Qc then bottom_positives else top_negatives in
      let '(g, bp, tn) :=
        if decide (0 ≤ Σ)%Qc
        then stack rest (bottom_positives + Σ)%Qc top_negatives
        else stack rest bottom_positives (top_negatives + Σ)%Qc in
      ((Σ, bottom) :: g, bp, tn)
  end.

Global Instance datetime_eq_dec : EqDecision datetime.
Proof. solve_decision. Defined.

Global Instance Payment_eq_dec : EqDecision Payment.
Proof. solve_decision. Defined.

(** How often [p] occurs in a list. *)
Definition occurrences (p : Payment) (l : list Payment) : nat :=
  length (filter (λ q, q = p) l).

(** The bucket of month [i] (0-based) of year [y], as a lookup that does
    not create the year. *)
Definition bucket_of (st : state) (y : Z) (i : nat) : list Payment :=
  default [] (year_buckets (PAYMENTS_BY_YEAR st) y !! i).

(** The date is set, and its month is one a [datetime] can have. *)
Definition date_ok (p : Payment) : bool :=
  match date p with
  | Some d => (1 <=? month d) && (month d <=? 12)
  | None => false
  end.

(** The bucket the date of [p] points to. *)
Definition home (st : state) (p : Payment) : list Payment :=
  match date p with
  | Some d =>
      if date_ok p then bucket_of st (year d) (Z.to_nat (month d - 1)) else []
  | None => []
  end.

(** The global list and the buckets agree: a year has twelve buckets, a
    payment found in a bucket is in the bucket of its date, and a payment
    occurs in the global list as often as in the bucket of its date. *)
Record consistent (st : state) : Prop := mkConsistent {
  cons_shape : ∀ y months,
    PAYMENTS_BY_YEAR st !! y = Some months → length months = 12%nat;
  cons_place : ∀ y i p,
    p ∈ bucket_of st y i →
    ∃ d, date p = Some d ∧ year d = y ∧ month d - 1 = Z.of_nat i;
  cons_count : ∀ p,
    occurrences p (ALL_PAYMENTS st) = occurrences p (home st p)
}.

(** The same while the second loop of [process_payments] still has the
    payments [rest] to place. *)
Record placing (rest : list Payment) (st : state) : Prop := mkPlacing {
  placing_shape : ∀ y months,
    PAYMENTS_BY_YEAR st !! y = Some months → length months = 12%nat;
  placing_place : ∀ y i p,
    p ∈ bucket_of st y i →
    ∃ d, date p = Some d ∧ year d = y ∧ month d - 1 = Z.of_nat i;
  placing_count : ∀ p,
    occurrences p (ALL_PAYMENTS st)
    = (occurrences p (home st p) + occurrences p rest)%nat
}.

(** ** Sample data *)

Module Sample.

Definition cfg : Config :=
  mkConfig {[ "DE01" := "Rent" ]}
           [("rewe", "Food"); ("Gehalt", "Salary"); ("lohn", "Salary")]
           [("Food", "green"); ("Nope", "black")]
           None
           [mkFileInfo "a.csv" None None None].

Definition payment (i n u : string) : Payment :=
  set_usage (set_name (set_iban Payment_init (Some i)) (Some n)) (Some u).

(** Known IBAN, and a usage text that holds the keyword [rewe]. *)
Definition rent : Payment := payment "DE01" "Vermieter" "Miete rewe".
Definition food : Payment := payment "DE99" "REWE Markt" "Einkauf 12".
Definition salary : Payment := payment "DE02" "Firma" "Lohn Gehalt".

(** A configuration that maps an IBAN to the empty category name. *)
Definition cfg_empty_name : Config :=
  mkConfig {[ "DE01" := "" ]} [] [] None [].

Definition on (y m d : Z) (a : Q) (p : Payment) : Payment :=
  set_amount (set_date p (Some (mkDatetime y m d))) (Some (Q2Qc a)).

Definition batch : list Payment :=
  [on 2023 1 5 (-12.30) food; on 2023 1 10 (-400) rent;
   on 2023 2 11 1234.56 salary].

(** The buckets of a year after categorisation. *)
Definition january : list Payment :=
  [on 2023 1 5 (-12.30) (set_category food (Some "Food"));
   on 2023 1 10 (-400) (set_category rent (Some "Rent"));
   on 2023 1 28 2.30 (set_category food (Some "Food"))].
Definition february : list Payment :=
  [on 2023 2 11 1234.56 (set_category salary (Some "Salary"))].
Definition year2023 : list (list Payment) :=
  january :: february :: replicate 10 [].
Definition cats : list (option string) :=
  [Some "Food"; Some "Rent"; Some "Salary"].
Definition colors : list string := ["green"; "C1"; "C2"].

(** A file whose only data row has a remark. *)
Definition fs_remark : gmap string string :=
  {[ "b.csv" := "Bemerkung" +:+ newline +:+ "x" ]}.

(** Two input files: a bank export with one payment, and a file with a
    header and no data row that is to be read with a field processor
    that does not exist. *)
Definition cfg_unknown_processor : Config :=
  mkConfig ∅ [] [] None
           [mkFileInfo "a.csv" None None None;
            mkFileInfo "h.csv" None None (Some "foo")].
Definition export : string :=
  "Buchungstag;Name Zahlungsbeteiligter;Verwendungszweck;Betrag;Saldo nach Buchung"
  +:+ newline +:+ "05.01.2023;REWE;Einkauf;-12,30;100,00" +:+ newline.
Definition fs_header_only : gmap string string :=
  {[ "a.csv" := export; "h.csv" := "Buchungstag;Betrag" +:+ newline ]}.
(** The same with one data row in the second file. *)
Definition fs_one_row : gmap string string :=
  {[ "a.csv" := export;
     "h.csv" := "Buchungstag;Betrag" +:+ newline +:+ "05.01.2023;1,00" ]}.



End Sample.

(** ** Reports *)

Definition is_positive (a : Qc) : bool := bool_decide (0 < a)%Qc.
Definition is_negative (a : Qc) : bool := bool_decide (a < 0)%Qc.

(** [sum(p.amount for p in ps if test(p.amount))], from the accumulator
    on; comparing [None] with a number is a [TypeError]. *)
Fixpoint sum_amounts_if (test : Qc → bool) (ps : list Payment) (acc : Qc)
    : result Qc :=
  match ps with
  | [] => Ok acc
  | p :: rest =>
      match amount p with
      | Some a =>
          if test a then sum_amounts_if test rest (acc + a)%Qc
          else sum_amounts_if test rest acc
      | None => Abort (Raised TypeError)
      end
  end.

(** One turn of the loop of [in_out_year]: [plus] and [minus]. *)
Definition in_out_month (bucket : list Payment) : result (Qc * Qc) :=
  plus ← sum_amounts_if is_positive bucket 0%Qc;
  minus ← sum_amounts_if is_negative bucket 0%Qc;
  Ok (plus, minus).

(** [PAYMENTS_BY_YEAR[year]] as a statement of the program: reading a year
    that is missing stores its twelve empty buckets. *)
Definition read_year (year : Z) (st : state) : state * list (list Payment) :=
  let months := year_buckets (PAYMENTS_BY_YEAR st) year in
  (mkState (ALL_PAYMENTS st) (<[year := months]> (PAYMENTS_BY_YEAR st)),
   months).

(** [in_out_year(year)]: the pairs [(plus, minus)] it prints, January
    first. *)
Definition in_out_year (year : Z) (st : state)
    : state * result (list (Qc * Qc)) :=
  let '(st, payments) := read_year year st in
  (st, mapM (λ i, bucket ← month_bucket payments i; in_out_month bucket)
            (seq 0 12)).

(** [show_categories()]: the categories of the two tables, and those of
    them without a colour. *)
Definition show_categories (cfg : Config) : gset string * gset string :=
  let categories : gset string :=
    list_to_set (map_to_list (known_ibans cfg)).*2
    ∪ list_to_set (keywords cfg).*2 in
  (categories, categories ∖ list_to_set (odict_keys (CATEGORY_COLORS cfg))).

(** [search(predicate)]: the payments it prints and their number. *)
Definition search (predicate : Payment → bool) (st : state)
    : list Payment * nat :=
  let results := filter (λ p, predicate p = true) (ALL_PAYMENTS st) in
  (results, length results).

(** [a < b] on [datetime]s. *)
Definition datetime_lt (a b : datetime) : bool :=
  (year a <? year b)
  || (year a =? year b)
     && ((month a <? month b) || (month a =? month b) && (day a <? day b)).

Definition dated (p : Payment) : option (Payment * datetime) :=
  d ← date p; Some (p, d).

(** A stable sort by the key: [x] goes before the first element whose key
    is not smaller than its own. *)
Fixpoint insert_dated (x : Payment * datetime) (s : list (Payment * datetime))
    : list (Payment * datetime) :=
  match s with
  | [] => [x]
  | y :: s' =>
      if datetime_lt y.2 x.2 then y :: insert_dated x s' else x :: y :: s'
  end.

Definition sort_dated (l : list (Payment * datetime))
    : list (Payment * datetime) :=
  foldr insert_dated [] l.

(** [sorted(l, key=lambda p: p.date)]: a list of fewer than two elements
    is returned without a comparison; otherwise comparing a date with
    [None] is a [TypeError]. *)
Definition sorted_by_date (l : list Payment) : result (list Payment) :=
  if (length l <? 2)%nat then Ok l
  else match mapM dated l with
       | Some ds => Ok (sort_dated ds).*1
       | None => Abort (Raised TypeError)
       end.

(** [show_current_amount()]: the balance it prints.  [payments[-1]] of an
    empty list is an [IndexError], formatting [None] a [TypeError]. *)
Definition show_current_amount (st : state) : result Qc :=
  payments ← sorted_by_date (ALL_PAYMENTS st);
  match last payments with
  | None => Abort (Raised IndexError)
  | Some p =>
      match amount_left p with
      | Some a => Ok a
      | None => Abort (Raised TypeError)
      end
  end.

(** What a complete run prints and draws. *)
Record report : Type := mkReport {
  in_out : list (Z * list (Qc * Qc));
  balance : Qc;
  chart : list bar
}.

(** [main()], from the empty containers of a fresh process.  [year] is
    the integer that [int(ARGS.year)] yields.  The years are visited in
    the key order of the map; the program visits them in the order in
    which they were first seen, which changes the order of the printed
    tables and nothing else. *)
Definition main (list_set : list (option string) → list (option string))
    (cfg : Config) (fs : gmap string string) (year : Z) : result report :=
  match process_all_input_files cfg fs initial_state with
  | (_, Abort e) => Abort e
  | (st, Ok _) =>
      tables ← mapM (λ y, t ← (in_out_year y st).2; Ok (y, t))
                    (map_to_list (PAYMENTS_BY_YEAR st)).*1;
      b ← show_current_amount st;
      bars ← show_year list_set cfg year st;
      Ok (mkReport tables b bars)
  end.

(** ** Vocabulary of the further statements *)

(** [sep.join(l)] *)
Fixpoint join (sep : string) (l : list string) : string :=
  match l with
  | [] => ""
  | [x] => x
  | x :: rest => x +:+ sep +:+ join sep rest
  end.

(** The payment is dated in month [i] (0-based) of year [y]. *)
Definition in_month (y : Z) (i : nat) (p : Payment) : bool :=
  match date p with
  | Some d => (year d =? y) && (Z.to_nat (month d - 1) =? i)%nat
  | None => false
  end.

(** A date, if there is one, has a month between 1 and 12. *)
Definition valid_date (p : Payment) : Prop :=
  ∀ d, date p = Some d → 1 ≤ month d ≤ 12.

Fixpoint chars (s : string) : list ascii :=
  match s with
  | EmptyString => []
  | String c s' => c :: chars s'
  end.

(** How often the character [c] occurs in [s]. *)
Definition count_char (c : ascii) (s : string) : nat :=
  length (filter (λ x, x = c) (chars s)).

(** The colour [overview_year] gives to the category at position [i]. *)
Definition expected_color (category_colors : odict)
    (color_default : option string) (i : nat) (cat : option string) : string :=
  match cat ≫= odict_get category_colors with
  | Some color => color
  | None => default (cycle_color i) color_default
  end.

(** The sum of the positive amounts of a bucket whose amounts are set,
    and the sum of its negative amounts. *)
Definition plus_of (bucket : list Payment) : Qc :=
  sum_Qc (filter (λ a, is_positive a = true) (omap amount bucket)).
Definition minus_of (bucket : list Payment) : Qc :=
  sum_Qc (filter (λ a, is_negative a = true) (omap amount bucket)).

(** ** Further sample data *)

Module Demo.

Definition entry (y m d : Z) (left : Q) : Payment :=
  set_amount_left (set_date Payment_init (Some (mkDatetime y m d)))
                  (Some (Q2Qc left)).

(** Four payments; the two of 11 February are the latest. *)
Definition ledger : state :=
  mkState [entry 2023 1 5 100; entry 2023 2 11 50; entry 2023 2 11 70;
           entry 2023 1 10 20] ∅.

(** A payment with a date and without an amount. *)
Definition bare : Payment := set_date Sample.food (Some (mkDatetime 2023 1 5)).

(** A configuration without input files. *)
Definition cfg_no_files : Config := mkConfig ∅ [] [] None [].

(** One bank export with two payments. *)
Definition cfg_one_file : Config :=
  mkConfig {[ "DE01" := "Rent" ]} [("rewe", "Food")] [("Food", "green")] None
           [mkFileInfo "a.csv" None None None].
Definition fs_one_file : gmap string string :=
  {[ "a.csv" :=
       "Buchungstag;Name Zahlungsbeteiligter;IBAN Zahlungsbeteiligter;Verwendungszweck;Betrag;Saldo nach Buchung"
       +:+ newline +:+ "05.01.2023;REWE;DE99;Einkauf;-12,30;100,00"
       +:+ newline +:+ "10.01.2023;Vermieter;DE01;Miete;-400,00;-300,00" ]}.

(** An export without the column [Betrag]. *)
Definition fs_no_amount : gmap string string :=
  {[ "a.csv" :=
       "Buchungstag;Name Zahlungsbeteiligter;Verwendungszweck"
       +:+ newline +:+ "05.01.2023;REWE;Einkauf" ]}.

End Demo.

(** * Properties of the categoriser *)

Section CategoriserFacts.
Variable cfg : Config.




Lemma associate_category_iban (p : Payment) (c : string) :
  iban_category cfg p = Some c →
  associate_category cfg p = Ok (set_category p (Some c)).
Proof.
  intros H. unfold associate_category.
  change (iban_category cfg (set_category p (Some "Unknown")))
    with (iban_category cfg p).
  by rewrite H.
Qed.

Lemma associate_category_text (p : Payment) (n u : string) :
  iban_category cfg p = None → name p = Some n → usage p = Some u →
  associate_category cfg p =
    keyword_loop cfg (odict_keys (keywords cfg)) (Py.lower n) (Py.lower u)
      (set_category p (Some "Unknown")).
Proof.
  intros Hi Hn Hu. unfold associate_category.
  change (iban_category cfg (set_category p (Some "Unknown")))
    with (iban_category cfg p).
  rewrite Hi. simpl. by rewrite Hn, Hu.
Qed.

(** Whatever the loop does, it leaves a payment with a category of the
    keyword table, or the payment it was given. *)
Lemma keyword_loop_category (ks : list string) (n u : string) (p p' : Payment) :
  keyword_loop cfg ks n u p = Ok p' →
  p' = p ∨ ∃ k c, (k, c) ∈ keywords cfg ∧ p' = set_category p (Some c).
Proof.
  induction ks as [|k ks IH]; simpl; [intros [= <-]; by left|].
  destruct (kw_matches n u k); [|done].
  destruct (odict_get (keywords cfg) k) as [c|] eqn:Hget; [|done].
  intros [= <-]. right. exists k, c. split; [|done].
  unfold odict_get in Hget.
  destruct (List.find _ _) as [[k' c']|] eqn:Hf; [|done].
  simplify_eq/=. apply find_some in Hf as [Hin Hk].
  apply bool_decide_eq_true_1 in Hk. simpl in Hk. subst.
  by apply list_elem_of_In.
Qed.

Lemma all_categories_nonempty_iban (i c : string) :
  all_categories_nonempty cfg = true →
  known_ibans cfg !! i = Some c → c ≠ "".
Proof.
  unfold all_categories_nonempty. rewrite forallb_forall. intros Hall Hi ->.
  specialize (Hall "").
  assert (In "" ((map_to_list (known_ibans cfg)).*2 ++ (keywords cfg).*2)) as Hin.
  { apply list_elem_of_In, elem_of_app. left.
    apply list_elem_of_fmap. exists (i, ""). split; [done|].
    by apply elem_of_map_to_list. }
  by apply Hall in Hin.
Qed.

Lemma all_categories_nonempty_keyword (k c : string) :
  all_categories_nonempty cfg = true →
  (k, c) ∈ keywords cfg → c ≠ "".
Proof.
  unfold all_categories_nonempty. rewrite forallb_forall. intros Hall Hk ->.
  specialize (Hall "").
  assert (In "" ((map_to_list (known_ibans cfg)).*2 ++ (keywords cfg).*2)) as Hin.
  { apply list_elem_of_In, elem_of_app. right.
    apply list_elem_of_fmap. by exists (k, ""). }
  by apply Hall in Hin.
Qed.

End CategoriserFacts.

Lemma odict_get_key (d : odict) (k : string) :
  k ∈ odict_keys d → is_Some (odict_get d k).
Proof.
  unfold odict_keys, odict_get. induction d as [|[k' c'] d IH]; simpl.
  - by intros ?%elem_of_nil.
  - intros [->|Hin]%elem_of_cons.
    + rewrite bool_decide_eq_true_2 by done. by eexists.
    + case_bool_decide; [by eexists|]. by apply IH.
Qed.

Lemma keyword_loop_total (cfg : Config) (ks : list string) (n u : string)
    (p : Payment) :
  ks ⊆ odict_keys (keywords cfg) → is_ok (keyword_loop cfg ks n u p) = true.
Proof.
  induction ks as [|k ks IH]; simpl; [done|]. intros Hsub.
  destruct (kw_matches n u k).
  - destruct (odict_get_key (keywords cfg) k) as [c ->]; [|done].
    apply Hsub. by left.
  - apply IH. intros x Hx. apply Hsub. by right.
Qed.




(** *** [kw in s] is the substring test *)

Lemma startswith_spec (p s : string) :
  Py.startswith p s = true ↔ ∃ post, s = p +:+ post.
Proof.
  revert s. induction p as [|a p IH]; intros s.
  - split; [by exists s|done].
  - destruct s as [|b s]; simpl.
    + split; [done|]. by intros [post ?].
    + rewrite andb_true_iff, bool_decide_eq_true, IH. split.
      * intros [-> [post ->]]. by exists post.
      * intros [post [= -> ->]]. split; [done|]. by exists post.
Qed.


(** *** Lowercased text holds no uppercase letter *)






(** * The claims about the categoriser *)

(** C1, as amended.  An IBAN found in [known_ibans] decides the category,
    whatever the name, the usage text and the keyword table are.  A payment
    with name and usage text is always categorised.  After categorisation
    the category is set, and it is a non-empty string when every category
    name of the configuration is non-empty. *)
Theorem associate_category_iban_precedence (cfg : Config) (p : Payment) :
  (∀ c, iban_category cfg p = Some c →
        associate_category cfg p = Ok (set_category p (Some c))) ∧
  (is_Some (name p) → is_Some (usage p) →
   is_ok (associate_category cfg p) = true) ∧
  (∀ p', associate_category cfg p = Ok p' →
     ∃ c, category p' = Some c ∧
          (all_categories_nonempty cfg = true → c ≠ "")).
Proof.
  split_and!.
  - apply associate_category_iban.
  - intros [n Hn] [u Hu].
    destruct (iban_category cfg p) as [c|] eqn:Hi.
    + by rewrite (associate_category_iban cfg p c).
    + rewrite (associate_category_text cfg p n u) by done.
      by apply keyword_loop_total.
  - intros p' Hp'.
    destruct (iban_category cfg p) as [c|] eqn:Hi.
    + rewrite (associate_category_iban cfg p c) in Hp' by done.
      injection Hp' as <-. exists c. split; [done|].
      intros Hall. unfold iban_category in Hi.
      destruct (iban p) as [i|]; [|done]. simpl in Hi.
      by eapply all_categories_nonempty_iban.
    + unfold associate_category in Hp'.
      change (iban_category cfg (set_category p (Some "Unknown")))
        with (iban_category cfg p) in Hp'.
      rewrite Hi in Hp'. simpl in Hp'.
      destruct (name p) as [n|]; [|done].
      destruct (usage p) as [u|]; [|done]. simpl in Hp'.
      apply keyword_loop_category in Hp' as [->|(k & c & Hk & ->)].
      * by exists "Unknown".
      * exists c. split; [done|]. intros Hall.
        by eapply all_categories_nonempty_keyword.
Qed.

Lemma associate_category_iban_precedence_witness :
  associate_category Sample.cfg Sample.rent
    = Ok (set_category Sample.rent (Some "Rent")) ∧
  is_ok (associate_category Sample.cfg Sample.food) = true ∧
  ∃ c, category (set_category Sample.food (Some "Food")) = Some c ∧ c ≠ "".
Proof.
  pose proof (associate_category_iban_precedence Sample.cfg Sample.rent)
    as (Hiban & _ & _).
  pose proof (associate_category_iban_precedence Sample.cfg Sample.food)
    as (_ & Htotal & Hset).
  split_and!.
  - apply Hiban. reflexivity.
  - apply Htotal; by eexists.
  - destruct (Hset (set_category Sample.food (Some "Food")) eq_refl)
      as (c & Hc & Hne).
    exists c. split; [exact Hc|]. apply Hne. reflexivity.
Defined.

(** C1, as stated, fails: an IBAN mapped to the empty string leaves the
    payment with an empty category. *)
Lemma associate_category_empty_category :
  let p := set_iban Payment_init (Some "DE01") in
  associate_category Sample.cfg_empty_name p = Ok (set_category p (Some "")) ∧
  category (set_category p (Some "")) = Some "".
Proof. split; reflexivity. Qed.





(** * The claims about the record parser *)









(** An unknown name is kept as it is; choosing the processor never ends
    the run. *)
Lemma resolve_field_processor_unknown (name : string) :
  name ≠ "gls" → resolve_field_processor name = FP_str name.
Proof.
  intros Hne. unfold resolve_field_processor.
  by apply String.eqb_neq in Hne as ->.
Qed.

(** C6 does not hold of the code.  The field processor ["foo"] of the
    second input file is unknown, yet the run does not stop there: when
    that file has a header and no data row, all input files are ingested
    without an abort, the payment of the first file is in the global list
    and the chart of the year is laid out.  When the file has a data row,
    the run ends in a [TypeError], at the moment the string is called for
    the first field. *)
Theorem unknown_field_processor_no_abort :
  let run :=
    process_all_input_files Sample.cfg_unknown_processor Sample.fs_header_only
      initial_state in
  run.2 = Ok () ∧
  length (ALL_PAYMENTS run.1) = 1%nat ∧
  is_ok (show_year remove_dups Sample.cfg_unknown_processor 2023 run.1) = true ∧
  (process_all_input_files Sample.cfg_unknown_processor Sample.fs_one_row
     initial_state).2
    = Abort (Raised TypeError).
Proof. split_and!; vm_compute; reflexivity. Qed.

Lemma gls_process_field_remark (p : Payment) (v : string) :
  Py.strip v ≠ "" →
  gls_process_field p "Bemerkung" v = Abort (SysExit None ("Wat " +:+ v)).
Proof.
  intros Hv. unfold gls_process_field. simpl.
  by apply String.eqb_neq in Hv as ->.
Qed.

(** C7 does not hold of the code.  A row with the remark ["x"] ends the
    run through [sys.exit()] without a status: the exit status is 0, where
    the currency error and the unknown key leave with status 255. *)
Theorem remark_exit_status :
  process_csv Sample.cfg Sample.fs_remark "b.csv" ";" newline FP_gls
      initial_state
    = (initial_state, Abort (SysExit None "Wat x")) ∧
  exit_status (SysExit None "Wat x") = 0 ∧
  exit_status (SysExit (Some (-1)) "Unknown currency: USD") = 255 ∧
  exit_status (SysExit (Some (-1)) "Unknown key: Foo") = 255.
Proof. split_and!; reflexivity. Qed.


(** * The claims about the aggregator *)

Lemma occurrences_app (p : Payment) (l k : list Payment) :
  occurrences p (l ++ k) = (occurrences p l + occurrences p k)%nat.
Proof. unfold occurrences. by rewrite filter_app, length_app. Qed.

Lemma occurrences_cons (p q : Payment) (l : list Payment) :
  occurrences p (q :: l)
  = ((if decide (q = p) then 1 else 0) + occurrences p l)%nat.
Proof.
  unfold occurrences. rewrite filter_cons. by case_decide.
Qed.

Lemma occurrences_snoc (p q : Payment) (l : list Payment) :
  occurrences p (l ++ [q])
  = (occurrences p l + (if decide (q = p) then 1 else 0))%nat.
Proof.
  rewrite occurrences_app, occurrences_cons.
  change (occurrences p []) with 0%nat. lia.
Qed.

Lemma occurrences_single (p q : Payment) :
  occurrences p [q] = if decide (q = p) then 1%nat else 0%nat.
Proof.
  rewrite occurrences_cons. change (occurrences p []) with 0%nat. lia.
Qed.

Lemma occurrences_pos (p : Payment) (l : list Payment) :
  (0 < occurrences p l)%nat ↔ p ∈ l.
Proof.
  unfold occurrences. induction l as [|q l IH].
  - simpl. split; [lia|by intros ?%elem_of_nil].
  - rewrite filter_cons, elem_of_cons. case_decide; simpl.
    + split; [by left|lia].
    + rewrite IH. split; [by right|]. by intros [->|?].
Qed.

Lemma year_buckets_length (st : state) (y : Z) :
  (∀ y months, PAYMENTS_BY_YEAR st !! y = Some months →
               length months = 12%nat) →
  length (year_buckets (PAYMENTS_BY_YEAR st) y) = 12%nat.
Proof.
  intros Hshape. unfold year_buckets.
  destruct (PAYMENTS_BY_YEAR st !! y) as [months|] eqn:Hy; simpl; eauto.
Qed.

Lemma py_index_month (d : datetime) :
  1 ≤ month d ≤ 12 → py_index 12 (month d - 1) = Ok (Z.to_nat (month d - 1)).
Proof.
  intros Hm. unfold py_index.
  rewrite (proj2 (Z.leb_le _ _)) by lia.
  by rewrite (proj2 (Z.ltb_lt _ _)) by lia.
Qed.

(** The buckets after [months[i].append(p)] in year [y]. *)
Lemma bucket_of_append (st : state) (y : Z) (i : nat) (p : Payment)
    (y' : Z) (i' : nat) :
  (i < length (year_buckets (PAYMENTS_BY_YEAR st) y))%nat →
  bucket_of
    (mkState (ALL_PAYMENTS st)
       (<[y := alter (λ b, b ++ [p]) i (year_buckets (PAYMENTS_BY_YEAR st) y)]>
          (PAYMENTS_BY_YEAR st))) y' i'
  = if decide (y' = y ∧ i' = i) then bucket_of st y i ++ [p]
    else bucket_of st y' i'.
Proof.
  intros Hi. unfold bucket_of at 1. unfold year_buckets at 1. simpl.
  destruct (decide (y' = y)) as [->|Hy].
  - rewrite lookup_insert_eq. simpl.
    destruct (decide (i' = i)) as [->|Hne].
    + rewrite decide_True by done. rewrite list_lookup_alter_eq.
      unfold bucket_of.
      destruct (lookup_lt_is_Some_2 _ _ Hi) as [b ->]. done.
    + rewrite decide_False by (by intros [_ ?]).
      by rewrite list_lookup_alter_ne.
  - rewrite lookup_insert_ne by done.
    by rewrite decide_False by (by intros [? _]).
Qed.

Lemma home_mono (st st' : state) (p : Payment) :
  (∀ y i q, q ∈ bucket_of st y i → q ∈ bucket_of st' y i) →
  p ∈ home st p → p ∈ home st' p.
Proof.
  intros Hmono. unfold home. destruct (date p) as [d|]; [|done].
  destruct (date_ok p); [apply Hmono|done].
Qed.

Lemma date_ok_month (p : Payment) (d : datetime) :
  date p = Some d → date_ok p = true → 1 ≤ month d ≤ 12.
Proof. unfold date_ok. intros ->. lia. Qed.

(** One turn of the second loop of [process_payments]. *)
Lemma placing_step (p0 : Payment) (rest : list Payment) (st : state)
    (d : datetime) :
  date p0 = Some d → date_ok p0 = true → placing (p0 :: rest) st →
  let st' :=
    mkState (ALL_PAYMENTS st)
      (<[year d := alter (λ b, b ++ [p0]) (Z.to_nat (month d - 1))
                     (year_buckets (PAYMENTS_BY_YEAR st) (year d))]>
         (PAYMENTS_BY_YEAR st)) in
  placing rest st' ∧ p0 ∈ home st' p0 ∧
  (∀ y i q, q ∈ bucket_of st y i → q ∈ bucket_of st' y i).
Proof.
  intros Hd Hok [Hshape Hplace Hcount].
  pose proof (date_ok_month p0 d Hd Hok) as Hm.
  pose proof (year_buckets_length st (year d) Hshape) as Hlen.
  assert (Z.to_nat (month d - 1) < length (year_buckets (PAYMENTS_BY_YEAR st) (year d)))%nat
    as Hi by lia.
  intros st'.
  assert (∀ y i, bucket_of st' y i
                 = if decide (y = year d ∧ i = Z.to_nat (month d - 1))
                   then bucket_of st (year d) (Z.to_nat (month d - 1)) ++ [p0]
                   else bucket_of st y i) as Hbucket.
  { intros y i. by apply bucket_of_append. }
  assert (∀ q, ∃ k, home st' q = home st q ++ k ∧ (k = [] ∨ k = [p0]) ∧
                    (q = p0 → k = [p0])) as Hhome.
  { intros q. unfold home. destruct (date q) as [dq|] eqn:Hdq.
    - destruct (date_ok q) eqn:Hq.
      + rewrite Hbucket. case_decide as Hpos.
        * destruct Hpos as [-> ->]. exists [p0]. split_and!; [done|by right|done].
        * exists []. rewrite app_nil_r. split_and!; [done|by left|].
          intros ->. destruct Hpos. by simplify_eq.
      + exists []. split_and!; [done|by left|]. intros ->. congruence.
    - exists []. split_and!; [done|by left|]. intros ->. congruence. }
  split_and!.
  - split.
    + intros y months. simpl. destruct (decide (y = year d)) as [->|Hy].
      * rewrite lookup_insert_eq. intros [= <-]. by rewrite length_alter.
      * rewrite lookup_insert_ne by done. apply Hshape.
    + intros y i q. rewrite Hbucket. case_decide as Hpos.
      * destruct Hpos as [-> ->]. intros [Hq| ->%list_elem_of_singleton]%elem_of_app.
        -- by apply Hplace.
        -- exists d. split_and!; [done..|lia].
      * apply Hplace.
    + intros q. change (ALL_PAYMENTS st') with (ALL_PAYMENTS st).
      rewrite Hcount, occurrences_cons.
      destruct (Hhome q) as (k & -> & Hk & Hq).
      rewrite occurrences_app. case_decide as Heq.
      * subst q. rewrite (Hq eq_refl), occurrences_single.
        rewrite decide_True by done. lia.
      * destruct Hk as [->| ->].
        -- change (occurrences q []) with 0%nat. lia.
        -- rewrite occurrences_single, decide_False by done. lia.
  - destruct (Hhome p0) as (k & -> & _ & Hk). rewrite (Hk eq_refl).
    apply elem_of_app. right. by apply list_elem_of_singleton.
  - intros y i q Hq. rewrite Hbucket. case_decide as Hpos; [|done].
    destruct Hpos as [-> ->]. apply elem_of_app. by left.
Qed.

Lemma bucket_loop_placing (rest : list Payment) (st : state) :
  Forall (λ p, date_ok p = true) rest → placing rest st →
  ∃ st', bucket_loop rest st = (st', Ok ()) ∧ consistent st' ∧
         ALL_PAYMENTS st' = ALL_PAYMENTS st ∧
         (∀ p, p ∈ rest → p ∈ home st' p) ∧
         (∀ y i q, q ∈ bucket_of st y i → q ∈ bucket_of st' y i).
Proof.
  intros Hrest. revert st.
  induction Hrest as [|p0 rest Hok _ IH]; intros st Hpl.
  - exists st. split_and!; [done| |done| |done].
    + destruct Hpl as [Hshape Hplace Hcount]. split; [done..|].
      intros p. rewrite Hcount. change (occurrences p []) with 0%nat. lia.
    + by intros p ?%elem_of_nil.
  - simpl. destruct (date p0) as [d|] eqn:Hd; [|by unfold date_ok in Hok; rewrite Hd in Hok].
    unfold bucket_append.
    rewrite (year_buckets_length st (year d) (placing_shape _ _ Hpl)).
    rewrite (py_index_month d (date_ok_month p0 d Hd Hok)).
    destruct (placing_step p0 rest st d Hd Hok Hpl) as (Hpl' & Hin & Hmono).
    destruct (IH _ Hpl') as (st' & Hloop & Hcons & Hall & Hhome & Hmono').
    exists st'. split_and!; [done|done|done| |].
    + intros p [->|Hp]%elem_of_cons; [|by apply Hhome].
      by eapply home_mono.
    + intros y i q Hq. by apply Hmono', Hmono.
Qed.

Lemma associate_category_shape (cfg : Config) (p p' : Payment) :
  associate_category cfg p = Ok p' → ∃ c, p' = set_category p (Some c).
Proof.
  intros Hp'. destruct (iban_category cfg p) as [c|] eqn:Hi.
  - rewrite (associate_category_iban cfg p c) in Hp' by done.
    injection Hp' as <-. by exists c.
  - unfold associate_category in Hp'.
    change (iban_category cfg (set_category p (Some "Unknown")))
      with (iban_category cfg p) in Hp'.
    rewrite Hi in Hp'. simpl in Hp'.
    destruct (name p) as [n|]; [|done].
    destruct (usage p) as [u|]; [|done]. simpl in Hp'.
    apply keyword_loop_category in Hp' as [->|(k & c & Hk & ->)]; by eexists.
Qed.

Lemma mapM_result_ok {A B} (f : A → result B) (l : list A) :
  Forall (λ x, is_ok (f x) = true) l →
  ∃ ys, mapM f l = Ok ys ∧ Forall2 (λ x y, f x = Ok y) l ys.
Proof.
  induction 1 as [|x l Hx _ (ys & IH & Hys)]; simpl.
  - by exists [].
  - destruct (f x) as [y|] eqn:Hfx; [|done]. simpl. rewrite IH. simpl.
    exists (y :: ys). split; [done|]. by constructor.
Qed.

Lemma bucket_of_initial (y : Z) (i : nat) : bucket_of initial_state y i = [].
Proof.
  unfold bucket_of, year_buckets.
  change (PAYMENTS_BY_YEAR initial_state) with (∅ : gmap Z (list (list Payment))).
  rewrite lookup_empty.
  change (default (replicate 12 []) None) with (replicate 12 (@nil Payment)).
  destruct (replicate 12 (@nil Payment) !! i) as [b|] eqn:Hb; [|done].
  by apply lookup_replicate in Hb as [-> _].
Qed.

Lemma initial_state_consistent : consistent initial_state.
Proof.
  split.
  - intros y months. simpl. by rewrite lookup_empty.
  - intros y i p. rewrite bucket_of_initial. by intros ?%elem_of_nil.
  - intros p. unfold home.
    destruct (date p) as [d|]; [|done]. destruct (date_ok p); [|done].
    by rewrite bucket_of_initial.
Qed.

(** Placing a categorised batch whose dates are set. *)
Lemma process_payments_places (cfg : Config) (batch batch' : list Payment)
    (st : state) :
  consistent st →
  mapM (associate_category cfg) batch = Ok batch' →
  Forall (λ p, date_ok p = true) batch' →
  ∃ st',
    process_payments cfg batch st = (st', Ok ()) ∧
    consistent st' ∧
    ALL_PAYMENTS st' = ALL_PAYMENTS st ++ batch' ∧
    ∀ p, p ∈ batch' → p ∈ home st' p.
Proof.
  intros [Hshape Hplace Hcount] Hmap Hdates.
  unfold process_payments. rewrite Hmap.
  set (st1 := mkState (ALL_PAYMENTS st ++ batch') (PAYMENTS_BY_YEAR st)).
  assert (placing batch' st1) as Hpl.
  { split; [exact Hshape|exact Hplace|].
    intros p. simpl. rewrite occurrences_app, Hcount. done. }
  destruct (bucket_loop_placing batch' st1 Hdates Hpl)
    as (st' & Hloop & Hcons & Hall & Hhome & _).
  by exists st'.
Qed.

Lemma mapM_result_ok_inv {A B} (f : A → result B) (l : list A) (ys : list B) :
  mapM f l = Ok ys → Forall2 (λ x y, f x = Ok y) l ys.
Proof.
  revert ys. induction l as [|x l IH]; intros ys; simpl.
  - intros [= <-]. constructor.
  - destruct (f x) as [y|] eqn:Hx; [|done]. simpl.
    destruct (mapM f l) as [ys'|]; [|done]. simpl. intros [= <-].
    constructor; [done|]. by apply IH.
Qed.

Lemma bucket_loop_ok_dates (rest : list Payment) (st st' : state) :
  bucket_loop rest st = (st', Ok ()) → Forall (λ p, is_Some (date p)) rest.
Proof.
  revert st. induction rest as [|p rest IH]; intros st; [by constructor|].
  simpl. destruct (date p) as [d|] eqn:Hd; [|done].
  destruct (bucket_append _ _ _ _) as [by_year [[]|]]; [|done].
  intros Hloop. constructor; [by rewrite Hd; eexists|]. by eapply IH.
Qed.

(** Whenever [process_payments] returns, the state it leaves is
    consistent, the month of a date being one a [datetime] can have. *)
Lemma process_payments_preserves (cfg : Config) (batch : list Payment)
    (st st' : state) :
  consistent st →
  Forall (λ p, ∀ d, date p = Some d → 1 ≤ month d ≤ 12) batch →
  process_payments cfg batch st = (st', Ok ()) →
  consistent st'.
Proof.
  intros Hcons Hvalid Hrun.
  destruct (mapM (associate_category cfg) batch) as [batch'|] eqn:Hmap;
    [|by unfold process_payments in Hrun; rewrite Hmap in Hrun].
  assert (Forall (λ p, date_ok p = true) batch') as Hdates.
  { assert (Forall (λ p, is_Some (date p)) batch') as Hset.
    { unfold process_payments in Hrun. rewrite Hmap in Hrun.
      by eapply bucket_loop_ok_dates. }
    apply mapM_result_ok_inv in Hmap. clear Hrun.
    induction Hmap as [|p p' l l' Hp _ IH]; [done|].
    apply Forall_cons in Hvalid as [Hm Hvalid].
    apply Forall_cons in Hset as [[d Hd] Hset].
    constructor; [|by apply IH].
    apply associate_category_shape in Hp as [c ->].
    unfold date_ok. simpl in *. rewrite Hd. specialize (Hm d Hd).
    apply andb_true_iff. split; apply Z.leb_le; lia. }
  destruct (process_payments_places cfg batch batch' st Hcons Hmap Hdates)
    as (st'' & Hrun' & Hcons' & _).
  rewrite Hrun in Hrun'. by simplify_eq.
Qed.

(** C9.  A batch whose payments have a date and can be categorised is
    ingested without an abort.  Afterwards the categorised payments stand
    at the end of the global list, each of them is in the bucket of its
    year and of its month minus one and in no other bucket, and the global
    list and the buckets agree as they did before. *)
Theorem process_payments_consistent (cfg : Config) (batch : list Payment)
    (st : state) :
  consistent st →
  Forall (λ p, date_ok p = true ∧ is_ok (associate_category cfg p) = true)
         batch →
  ∃ st' batch',
    mapM (associate_category cfg) batch = Ok batch' ∧
    process_payments cfg batch st = (st', Ok ()) ∧
    consistent st' ∧
    ALL_PAYMENTS st' = ALL_PAYMENTS st ++ batch' ∧
    ∀ p, p ∈ batch' →
      ∃ d, date p = Some d ∧
           p ∈ bucket_of st' (year d) (Z.to_nat (month d - 1)) ∧
           ∀ y i, p ∈ bucket_of st' y i →
                  y = year d ∧ Z.of_nat i = month d - 1.
Proof.
  intros Hcons Hbatch.
  destruct (mapM_result_ok (associate_category cfg) batch) as (batch' & Hmap & Hcat).
  { eapply Forall_impl; [exact Hbatch|]. by intros p [_ ?]. }
  assert (Forall (λ p, date_ok p = true) batch') as Hdates.
  { clear Hmap. induction Hcat as [|p p' l l' Hp _ IH]; [done|].
    apply Forall_cons in Hbatch as [[Hok _] Hbatch]. constructor; [|by apply IH].
    apply associate_category_shape in Hp as [c ->]. exact Hok. }
  destruct (process_payments_places cfg batch batch' st Hcons Hmap Hdates)
    as (st' & Hrun & Hcons' & Hall & Hhome).
  exists st', batch'. split_and!; [done..|].
  intros p Hp. specialize (Hhome p Hp). unfold home in Hhome.
  destruct (date p) as [d|] eqn:Hd; [|by apply elem_of_nil in Hhome].
  destruct (date_ok p); [|by apply elem_of_nil in Hhome].
  exists d. split_and!; [done..|].
  intros y i Hyi.
  destruct (cons_place _ Hcons' y i p Hyi) as (d' & Hd' & <- & <-).
  by simplify_eq.
Qed.

Lemma process_payments_consistent_witness :
  ∃ st' batch',
    mapM (associate_category Sample.cfg) Sample.batch = Ok batch' ∧
    process_payments Sample.cfg Sample.batch initial_state = (st', Ok ()) ∧
    consistent st' ∧
    ALL_PAYMENTS st' = ALL_PAYMENTS initial_state ++ batch' ∧
    ∀ p, p ∈ batch' →
      ∃ d, date p = Some d ∧
           p ∈ bucket_of st' (year d) (Z.to_nat (month d - 1)) ∧
           ∀ y i, p ∈ bucket_of st' y i →
                  y = year d ∧ Z.of_nat i = month d - 1.
Proof.
  apply (process_payments_consistent Sample.cfg Sample.batch initial_state).
  - exact initial_state_consistent.
  - repeat constructor.
Defined.

(** * The claims about the stacking layout *)

Lemma sum_Qc_cons (a : Qc) (l : list Qc) :
  sum_Qc (a :: l) = (a + sum_Qc l)%Qc.
Proof. reflexivity. Qed.

Lemma sum_Qc_app (l k : list Qc) :
  sum_Qc (l ++ k) = (sum_Qc l + sum_Qc k)%Qc.
Proof.
  induction l as [|a l IH].
  - change (sum_Qc []) with 0%Qc. rewrite app_nil_l. ring.
  - rewrite <-app_comm_cons, !sum_Qc_cons, IH. ring.
Qed.

Lemma sum_amounts_ok (ps : list Payment) (acc : Qc) :
  Forall (λ p, is_Some (amount p)) ps →
  sum_amounts ps acc = Ok (acc + sum_Qc (omap amount ps))%Qc.
Proof.
  intros Hps. revert acc. induction Hps as [|p ps [a Ha] _ IH]; intros acc; simpl.
  - f_equal. ring.
  - rewrite Ha. rewrite IH. f_equal.
    change (list_omap Payment Qc amount ps) with (omap amount ps).
    change (foldr Qcplus (Q2Qc 0) (omap amount ps))
      with (sum_Qc (omap amount ps)).
    rewrite sum_Qc_cons. ring.
Qed.

Lemma category_sum_ok (bucket : list Payment) (cat : option string) :
  Forall (λ p, is_Some (amount p)) bucket →
  category_sum bucket cat = Ok (category_total bucket cat).
Proof.
  intros Hb. unfold category_sum, category_total.
  rewrite sum_amounts_ok.
  - f_equal. ring.
  - apply Forall_forall. intros p [_ Hp]%list_elem_of_filter.
    by eapply Forall_forall in Hb.
Qed.

(** The loop over the categories stacks the category totals. *)
Lemma category_loop_stack (x : Z) (bucket : list Payment)
    (cats : list (option string)) (colors : list string) (index : nat)
    (bp tn : Qc) :
  Forall (λ p, is_Some (amount p)) bucket →
  (index + length cats ≤ length colors)%nat →
  ∃ bars,
    category_loop x bucket cats colors index bp tn
      = Ok (bars, (stack (category_total bucket <$> cats) bp tn).1.2,
                  (stack (category_total bucket <$> cats) bp tn).2) ∧
    geometry bars = (stack (category_total bucket <$> cats) bp tn).1.1 ∧
    Forall (λ b, bar_x b = x) bars.
Proof.
  intros Hb. revert index bp tn.
  induction cats as [|cat cats IH]; intros index bp tn Hlen; simpl.
  - by exists [].
  - rewrite category_sum_ok by done. simpl.
    destruct (lookup_lt_is_Some_2 colors index) as [color Hcolor];
      [simpl in Hlen; lia|].
    rewrite Hcolor. simpl.
    case_decide as Hsign.
    + destruct (IH (S index) (bp + category_total bucket cat)%Qc tn)
        as (bars & -> & Hg & Hx); [simpl in Hlen; lia|].
      simpl. destruct (stack _ _ _) as [[g bp'] tn']. simpl in *.
      eexists. split; [done|]. split; [by rewrite <-Hg|]. by constructor.
    + destruct (IH (S index) bp (tn + category_total bucket cat)%Qc)
        as (bars & -> & Hg & Hx); [simpl in Hlen; lia|].
      simpl. destruct (stack _ _ _) as [[g bp'] tn']. simpl in *.
      eexists. split; [done|]. split; [by rewrite <-Hg|]. by constructor.
Qed.

(** *** Arithmetic of the two stacks *)








(** *** What [stack] computes *)













(** *** Conservation *)






(** *** The loops over the months *)

Lemma mapM_month_bucket (payments : list (list Payment)) (k n : nat) :
  (k + n ≤ length payments)%nat →
  mapM (month_bucket payments) (seq k n) = Ok (take n (drop k payments)).
Proof.
  revert k. induction n as [|n IH]; intros k Hlen; [done|].
  cbn [seq mapM].
  destruct (lookup_lt_is_Some_2 payments k) as [b Hb]; [lia|].
  assert (month_bucket payments k = Ok b) as ->
    by (unfold month_bucket; by rewrite Hb).
  rewrite IH by lia. by rewrite (drop_S _ _ _ Hb).
Qed.

Lemma length_assign_colors (category_colors : odict)
    (cats : list (option string)) (cat_colors : list string) :
  length (assign_colors category_colors cats cat_colors) = length cat_colors.
Proof.
  revert cat_colors.
  induction category_colors as [|[c col] rest IH]; intros cat_colors; [done|].
  cbn [assign_colors]. rewrite IH.
  destruct (list_find _ cats) as [[i ?]|]; [|done]. by rewrite length_insert.
Qed.

Lemma length_initial_colors (d : option string) (n : nat) :
  length (initial_colors d n) = n.
Proof. unfold initial_colors. by rewrite length_fmap, length_seq. Qed.

Lemma bars_of_month_same (M : nat) (bars : list bar) :
  Forall (λ b, bar_x b = Z.of_nat M + 1) bars → bars_of_month M bars = bars.
Proof.
  unfold bars_of_month. induction 1 as [|b bars Hb _ IH]; [done|].
  by rewrite filter_cons_True, IH.
Qed.

Lemma bars_of_month_other (M m : nat) (bars : list bar) :
  M ≠ m → Forall (λ b, bar_x b = Z.of_nat m + 1) bars →
  bars_of_month M bars = [].
Proof.
  intros Hne. unfold bars_of_month. induction 1 as [|b bars Hb _ IH]; [done|].
  rewrite filter_cons_False; [done|]. rewrite Hb. lia.
Qed.

Lemma months_loop_spec (months : list nat) (payments : list (list Payment))
    (cats : list (option string)) (colors : list string) :
  Forall (λ m, is_Some (payments !! m)) months →
  Forall (Forall (λ p, is_Some (amount p))) payments →
  (length cats ≤ length colors)%nat →
  ∃ bars,
    months_loop months payments cats colors = Ok bars ∧
    (∀ M, M ∉ months → bars_of_month M bars = []) ∧
    (NoDup months → ∀ M bucket,
       M ∈ months → payments !! M = Some bucket →
       ∃ bp tn, month_layout M bucket cats colors
                = Ok (bars_of_month M bars, bp, tn)).
Proof.
  intros Hmonths Hamounts Hlen.
  induction Hmonths as [|m months [bucket Hm] _ (more & Hmore & Hout & Hin)].
  - exists []. split_and!; [done|done|]. by intros _ M bucket ?%elem_of_nil.
  - cbn [months_loop].
    assert (month_bucket payments m = Ok bucket) as ->
      by (unfold month_bucket; by rewrite Hm).
    assert (Forall (λ p, is_Some (amount p)) bucket) as Hb.
    { eapply Forall_forall in Hamounts; [done|].
      by eapply list_elem_of_lookup_2. }
    unfold month_layout at 1.
    destruct (category_loop_stack (Z.of_nat m + 1) bucket cats colors 0
                0%Qc 0%Qc Hb) as (bm & Hrun & _ & Hx); [simpl; lia|].
    cbn [mbind result_bind]. rewrite Hrun, Hmore.
    exists (bm ++ more). split_and!; [done| |].
    + intros M HM. apply not_elem_of_cons in HM as [Hne HM].
      unfold bars_of_month. rewrite filter_app.
      fold (bars_of_month M bm). fold (bars_of_month M more).
      by rewrite (bars_of_month_other M m), Hout.
    + intros [Hnotin Hnd]%NoDup_cons M bucket' [->|HM]%elem_of_cons Hbucket'.
      * simplify_eq. unfold bars_of_month. rewrite filter_app.
        fold (bars_of_month m bm). fold (bars_of_month m more).
        rewrite bars_of_month_same, Hout, app_nil_r by done.
        unfold month_layout. rewrite Hrun. by eexists _, _.
      * unfold bars_of_month. rewrite filter_app.
        fold (bars_of_month M bm). fold (bars_of_month M more).
        rewrite (bars_of_month_other M m) by (done || by intros ->).
        by apply Hin.
Qed.


Section Conservation.
Variable list_set : list (option string) → list (option string).
(** What [list(set(xs))] guarantees: the elements of [xs], each once. *)
Hypothesis list_set_spec :
  ∀ xs, NoDup (list_set xs) ∧ ∀ x, x ∈ list_set xs ↔ x ∈ xs.


End Conservation.


(** * Dates of parsed payments *)

Lemma directive_m_range (tok : string) (m : Z) :
  Py.directive_m tok = Some m → 1 ≤ m ≤ 12.
Proof.
  unfold Py.directive_m, Py.two_digits, Py.is_digit, Py.digit_val.
  destruct tok as [|a [|b [|c tok]]]; try done.
  - destruct (_ && _) eqn:H; [|done]. intros [= <-].
    apply andb_true_iff in H as [[_ H9%Nat.leb_le]%andb_true_iff H1%Z.leb_le].
    lia.
  - destruct (_ && _ && _); [|done]. simpl.
    destruct ((1 <=? _) && _) eqn:Hv; [|done]. intros [= <-].
    apply andb_true_iff in Hv as [?%Z.leb_le ?%Z.leb_le]. lia.
Qed.

(** A date that [strptime] returns has a month between 1 and 12. *)
Lemma strptime_month (s : string) (d : datetime) :
  Py.strptime s = Ok d → 1 ≤ month d ≤ 12.
Proof.
  unfold Py.strptime.
  destruct (Py.cut Py.is_dot s) as [dtok [rest|]]; [|done]. simpl.
  destruct (Py.cut Py.is_dot rest) as [mtok [ytok|]]; [|done]. simpl.
  destruct (Py.directive_d dtok) as [dd|]; [|done]. simpl.
  destruct (Py.directive_m mtok) as [m|] eqn:Hm; [|done]. simpl.
  destruct (Py.directive_Y ytok) as [y|]; [|done]. simpl.
  destruct (_ && _); [|done]. intros [= <-]. simpl.
  by eapply directive_m_range.
Qed.

Lemma gls_process_field_date (p p' : Payment) (v : string) :
  gls_process_field p "Buchungstag" v = Ok p' → date_ok p' = true.
Proof.
  unfold gls_process_field. simpl.
  destruct (Py.strptime v) as [d|] eqn:Hd; [|done]. simpl. intros [= <-].
  unfold date_ok. simpl. apply strptime_month in Hd.
  apply andb_true_iff. split; apply Z.leb_le; lia.
Qed.

(** * Further properties of the categoriser *)

Lemma keyword_loop_transfer (cfg : Config) (ks : list string) (n u : string)
    (p q r : Payment) :
  category p = category q →
  keyword_loop cfg ks n u p = Ok r →
  keyword_loop cfg ks n u q = Ok (set_category q (category r)).
Proof.
  intros Hcat. induction ks as [|k ks IH]; simpl.
  - intros [= <-]. rewrite Hcat. by destruct q.
  - destruct (kw_matches n u k); [|done].
    destruct (odict_get (keywords cfg) k); [|done]. by intros [= <-].
Qed.

(** The category depends on the IBAN, the name and the usage text alone. *)
Lemma associate_category_transfer (cfg : Config) (p q r : Payment) :
  iban q = iban p → name q = name p → usage q = usage p →
  associate_category cfg p = Ok r →
  associate_category cfg q = Ok (set_category q (category r)).
Proof.
  intros Hi Hn Hu. unfold associate_category, iban_category. simpl.
  rewrite Hi, Hn, Hu.
  destruct (iban p ≫= _) as [c|]; [by intros [= <-]|].
  destruct (name p) as [n|]; [|done].
  destruct (usage p) as [u|]; [|done]. simpl.
  intros Hloop.
  by rewrite (keyword_loop_transfer cfg _ _ _
                (set_category p (Some "Unknown"))
                (set_category q (Some "Unknown")) r eq_refl Hloop).
Qed.

(** X1.  Categorising a categorised payment again changes nothing. *)
Theorem associate_category_idempotent (cfg : Config) (p p' : Payment) :
  associate_category cfg p = Ok p' → associate_category cfg p' = Ok p'.
Proof.
  intros Hp. destruct (associate_category_shape cfg p p' Hp) as [c ->].
  by rewrite (associate_category_transfer cfg p (set_category p (Some c))
                (set_category p (Some c)) eq_refl eq_refl eq_refl Hp).
Qed.

Lemma associate_category_idempotent_witness :
  associate_category Sample.cfg (set_category Sample.salary (Some "Salary"))
  = Ok (set_category Sample.salary (Some "Salary")).
Proof.
  apply (associate_category_idempotent Sample.cfg Sample.salary). reflexivity.
Defined.

(** X2.  Two payments with the same IBAN, name and usage text get the
    same category, whatever their other attributes are (the category read
    from the file, [innate_category], among them); and if the categoriser
    fails on one it fails on the other. *)
Theorem associate_category_depends (cfg : Config) (p q : Payment) :
  iban q = iban p → name q = name p → usage q = usage p →
  (∀ r, associate_category cfg p = Ok r →
        ∃ r', associate_category cfg q = Ok r' ∧ category r' = category r) ∧
  (is_ok (associate_category cfg p) = is_ok (associate_category cfg q)).
Proof.
  intros Hi Hn Hu. split.
  - intros r Hr. eexists. split; [by eapply associate_category_transfer|done].
  - destruct (associate_category cfg p) as [r|e] eqn:Hp.
    + by rewrite (associate_category_transfer cfg p q r Hi Hn Hu Hp).
    + destruct (associate_category cfg q) as [r|e'] eqn:Hq; [|done].
      by rewrite (associate_category_transfer cfg q p r
                    (eq_sym Hi) (eq_sym Hn) (eq_sym Hu) Hq) in Hp.
Qed.

Lemma associate_category_depends_witness :
  ∃ r', associate_category Sample.cfg
          (set_innate_category Sample.salary (Some "Hobby")) = Ok r' ∧
        category r' = Some "Salary".
Proof.
  destruct (associate_category_depends Sample.cfg Sample.salary
              (set_innate_category Sample.salary (Some "Hobby"))
              eq_refl eq_refl eq_refl) as [H _].
  apply (H (set_category Sample.salary (Some "Salary"))). reflexivity.
Defined.

(** X3.  The category of a categorised payment is ["Unknown"] or one of
    the categories that [show_categories] lists. *)
Theorem associate_category_listed (cfg : Config) (p p' : Payment) :
  associate_category cfg p = Ok p' →
  ∃ c, category p' = Some c ∧ (c = "Unknown" ∨ c ∈ (show_categories cfg).1).
Proof.
  intros Hp'. unfold show_categories. simpl.
  destruct (iban_category cfg p) as [c|] eqn:Hi.
  - rewrite (associate_category_iban cfg p c Hi) in Hp'. injection Hp' as <-.
    exists c. split; [done|]. right. apply elem_of_union. left.
    unfold iban_category in Hi. destruct (iban p) as [i|]; [|done].
    apply elem_of_list_to_set, list_elem_of_fmap. exists (i, c).
    split; [done|]. by apply elem_of_map_to_list.
  - unfold associate_category in Hp'.
    change (iban_category cfg (set_category p (Some "Unknown")))
      with (iban_category cfg p) in Hp'.
    rewrite Hi in Hp'. simpl in Hp'.
    destruct (name p) as [n|]; [|done].
    destruct (usage p) as [u|]; [|done]. simpl in Hp'.
    apply keyword_loop_category in Hp' as [->|(k & c & Hk & ->)].
    + exists "Unknown". split; [done|by left].
    + exists c. split; [done|]. right. apply elem_of_union. right.
      apply elem_of_list_to_set, list_elem_of_fmap. by exists (k, c).
Qed.

Lemma associate_category_listed_witness :
  ∃ c, category (set_category Sample.rent (Some "Rent")) = Some c ∧
       (c = "Unknown" ∨ c ∈ (show_categories Sample.cfg).1).
Proof.
  apply (associate_category_listed Sample.cfg Sample.rent). reflexivity.
Defined.

(** * Further properties of the record parser *)

(** *** Keying a row by the header *)

Lemma odict_set_fresh (kv : odict) (k v : string) :
  k ∉ kv.*1 → odict_set kv k v = kv ++ [(k, v)].
Proof.
  induction kv as [|[k' v'] kv IH]; [done|]. rewrite fmap_cons. simpl.
  intros [Hne Hk]%not_elem_of_cons.
  rewrite bool_decide_eq_false_2 by done. by rewrite IH.
Qed.

Lemma odict_get_set_eq (kv : odict) (k v : string) :
  odict_get (odict_set kv k v) k = Some v.
Proof.
  unfold odict_get. induction kv as [|[k' v'] kv IH]; simpl.
  - by rewrite bool_decide_eq_true_2.
  - case_bool_decide as Hk; simpl.
    + by rewrite bool_decide_eq_true_2.
    + by rewrite bool_decide_eq_false_2.
Qed.

Lemma odict_get_set_ne (kv : odict) (k k' v : string) :
  k ≠ k' → odict_get (odict_set kv k v) k' = odict_get kv k'.
Proof.
  intros Hne. unfold odict_get. induction kv as [|[k0 v0] kv IH]; simpl.
  - by rewrite bool_decide_eq_false_2.
  - case_bool_decide as Hk; simpl.
    + subst k0. by rewrite bool_decide_eq_false_2.
    + case_bool_decide; [done|]. apply IH.
Qed.

Lemma key_row_zip (keys : list string) (i : nat) (row : list string)
    (kv : odict) :
  NoDup keys → (i + length row ≤ length keys)%nat → kv.*1 = take i keys →
  key_row keys i row kv = Ok (kv ++ zip (drop i keys) row).
Proof.
  intros Hnd. revert i kv. induction row as [|v row IH]; intros i kv Hlen Hkv.
  - simpl. by rewrite zip_with_nil_r, app_nil_r.
  - simpl in Hlen. cbn [key_row].
    destruct (lookup_lt_is_Some_2 keys i) as [k Hk]; [lia|]. rewrite Hk.
    assert (k ∉ kv.*1) as Hfresh.
    { rewrite Hkv. rewrite <-(take_drop i keys) in Hnd.
      apply NoDup_app in Hnd as (_ & Hdisj & _). intros Hin.
      apply (Hdisj k Hin). rewrite (drop_S _ _ _ Hk). by left. }
    rewrite odict_set_fresh by done. rewrite IH.
    + rewrite (drop_S _ _ _ Hk). simpl. by rewrite <-app_assoc.
    + lia.
    + by rewrite fmap_app, Hkv, (take_S_r _ _ _ Hk).
Qed.

Lemma key_row_overrun (keys : list string) (i : nat) (row : list string)
    (kv : odict) :
  (i ≤ length keys)%nat → (length keys < i + length row)%nat →
  key_row keys i row kv = Abort (Raised IndexError).
Proof.
  revert i kv. induction row as [|v row IH]; intros i kv Hi Hlen; simpl in *.
  - lia.
  - destruct (keys !! i) as [k|] eqn:Hk; [|done].
    apply lookup_lt_Some in Hk. apply IH; lia.
Qed.

Lemma key_row_abort (keys : list string) (i : nat) (row : list string)
    (kv : odict) (e : abort) :
  key_row keys i row kv = Abort e → e = Raised IndexError.
Proof.
  revert i kv. induction row as [|v row IH]; intros i kv; simpl; [done|].
  destruct (keys !! i) as [k|]; [apply IH|]. by intros [= <-].
Qed.

Lemma key_row_get_old (keys : list string) (i : nat) (row : list string)
    (kv kv' : odict) (k : string) :
  key_row keys i row kv = Ok kv' →
  (∀ j, (j < length row)%nat → keys !! (i + j)%nat ≠ Some k) →
  odict_get kv' k = odict_get kv k.
Proof.
  revert i kv. induction row as [|v row IH]; intros i kv; simpl.
  - by intros [= <-].
  - destruct (keys !! i) as [k0|] eqn:Hk0; [|done]. intros Hrow Hlater.
    rewrite (IH _ _ Hrow).
    + apply odict_get_set_ne. intros ->.
      apply (Hlater 0%nat); [lia|]. by rewrite Nat.add_0_r.
    + intros j Hj. replace (S i + j)%nat with (i + S j)%nat by lia.
      apply Hlater. lia.
Qed.

Lemma key_row_get_last (keys : list string) (i : nat) (row : list string)
    (kv kv' : odict) (j : nat) (k v : string) :
  key_row keys i row kv = Ok kv' →
  keys !! (i + j)%nat = Some k → row !! j = Some v →
  (∀ j', (j < j')%nat → (j' < length row)%nat →
         keys !! (i + j')%nat ≠ Some k) →
  odict_get kv' k = Some v.
Proof.
  revert i kv j. induction row as [|v0 row IH]; intros i kv j; simpl; [done|].
  destruct (keys !! i) as [k0|] eqn:Hk0; [|done]. intros Hrow Hk Hv Hlater.
  destruct j as [|j].
  - rewrite Nat.add_0_r in Hk. simplify_eq/=.
    rewrite (key_row_get_old _ _ _ _ _ _ Hrow).
    + apply odict_get_set_eq.
    + intros j Hj. replace (S i + j)%nat with (i + S j)%nat by lia.
      apply Hlater; lia.
  - simpl in Hv. apply (IH _ _ j Hrow).
    + by replace (S i + j)%nat with (i + S j)%nat by lia.
    + done.
    + intros j' Hj' Hlen. replace (S i + j')%nat with (i + S j')%nat by lia.
      apply Hlater; lia.
Qed.

(** X4.  Under a header without repeated names, a row with at most as
    many fields as the header is keyed by position: the first names of
    the header, in order, each with the field below it.  Names beyond the
    end of a short row get no entry. *)
Theorem key_row_positional (keys row : list string) :
  NoDup keys → (length row ≤ length keys)%nat →
  key_row keys 0 row [] = Ok (zip keys row).
Proof.
  intros Hnd Hlen. rewrite key_row_zip by done. by rewrite drop_0.
Qed.

Lemma key_row_positional_witness :
  key_row ["Buchungstag"; "Betrag"; "Waehrung"] 0 ["05.01.2023"; "1,00"] []
  = Ok [("Buchungstag", "05.01.2023"); ("Betrag", "1,00")].
Proof.
  apply (key_row_positional ["Buchungstag"; "Betrag"; "Waehrung"]
           ["05.01.2023"; "1,00"]).
  - exact (bool_decide_eq_true_1
             (NoDup ["Buchungstag"; "Betrag"; "Waehrung"]) eq_refl).
  - simpl. lia.
Defined.

(** X5.  When the header repeats a name, the field of the last column
    with that name is the value of the name in the keyed row. *)
Theorem key_row_last_column (keys row : list string) (kv : odict)
    (j : nat) (k v : string) :
  key_row keys 0 row [] = Ok kv →
  keys !! j = Some k → row !! j = Some v →
  (∀ j', (j < j')%nat → (j' < length row)%nat → keys !! j' ≠ Some k) →
  odict_get kv k = Some v.
Proof.
  intros Hrow Hk Hv Hlater.
  by apply (key_row_get_last keys 0 row [] kv j k v Hrow Hk Hv).
Qed.

Lemma key_row_last_column_witness :
  odict_get [("Betrag", "2,00"); ("Waehrung", "EUR")] "Betrag" = Some "2,00".
Proof.
  apply (key_row_last_column ["Betrag"; "Waehrung"; "Betrag"]
           ["1,00"; "EUR"; "2,00"] _ 2 "Betrag" "2,00");
    [reflexivity..|].
  intros j' Hlt Hlen. simpl in Hlen. lia.
Defined.

Lemma mapM_result_abort_uniform {A B} (f : A → result B) (l : list A)
    (x : A) (e : abort) :
  x ∈ l → f x = Abort e → (∀ y e', f y = Abort e' → e' = e) →
  mapM f l = Abort e.
Proof.
  intros Hx Hfx Hall. induction l as [|a l IH]; [by apply elem_of_nil in Hx|].
  simpl. destruct (f a) as [b|e'] eqn:Hfa; simpl.
  - apply elem_of_cons in Hx as [->|Hx]; [congruence|]. by rewrite IH.
  - by rewrite (Hall a e' Hfa).
Qed.

(** X6.  A data row with more fields than the header has names ends
    [process_csv] with an [IndexError], whatever the field processor is:
    no field of the file has been processed, and the global list and the
    buckets are as before. *)
Theorem process_csv_long_row (cfg : Config) (fs : gmap string string)
    (file col_sep row_sep : string) (fp : field_processor) (st : state)
    (text : string) (lines : list string) (keys : list string)
    (rows : list (list string)) (row : list string) :
  fs !! file = Some text →
  Py.split row_sep (Py.strip text) = Ok lines →
  mapM (Py.split col_sep) lines = Ok (keys :: rows) →
  row ∈ rows → (length keys < length row)%nat →
  process_csv cfg fs file col_sep row_sep fp st
  = (st, Abort (Raised IndexError)).
Proof.
  intros Hfile Hlines Hrows Hrow Hlen.
  unfold process_csv, parse_csv, keyed_rows, read_text.
  rewrite Hfile. simpl. rewrite Hlines. simpl. rewrite Hrows. simpl.
  rewrite (mapM_result_abort_uniform (λ row, key_row keys 0 row []) rows row
             (Raised IndexError) Hrow); [done| |].
  - apply key_row_overrun; lia.
  - intros y e'. apply key_row_abort.
Qed.

Lemma process_csv_long_row_witness :
  process_csv Sample.cfg {[ "l.csv" := "Betrag;Waehrung" +:+ newline +:+ "1,00;EUR;x" ]}
    "l.csv" ";" newline FP_gls initial_state
  = (initial_state, Abort (Raised IndexError)).
Proof.
  apply (process_csv_long_row Sample.cfg _ "l.csv" ";" newline FP_gls
           initial_state ("Betrag;Waehrung" +:+ newline +:+ "1,00;EUR;x")
           ["Betrag;Waehrung"; "1,00;EUR;x"] ["Betrag"; "Waehrung"]
           [["1,00"; "EUR"; "x"]] ["1,00"; "EUR"; "x"]).
  - reflexivity.
  - reflexivity.
  - reflexivity.
  - set_solver.
  - simpl. lia.
Defined.

(** *** The usage text after [re.sub] *)

Lemma chars_app (a b : string) : chars (a +:+ b) = chars a ++ chars b.
Proof. induction a as [|c a IH]; [done|]. simpl. by rewrite IH. Qed.




Lemma startswith_chars (kw s : string) (c : ascii) :
  Py.startswith kw s = true → c ∈ chars kw → c ∈ chars s.
Proof.
  intros [post ->]%startswith_spec Hc. rewrite chars_app.
  apply elem_of_app. by left.
Qed.




(** *** Amounts with more than one separator *)

Lemma count_char_cons (c x : ascii) (s : string) :
  count_char c (String x s)
  = ((if decide (x = c) then 1 else 0) + count_char c s)%nat.
Proof. unfold count_char. simpl. rewrite filter_cons. by case_decide. Qed.

Lemma count_char_app (c : ascii) (a b : string) :
  count_char c (a +:+ b) = (count_char c a + count_char c b)%nat.
Proof. unfold count_char. by rewrite chars_app, filter_app, length_app. Qed.

Lemma count_char_none (c : ascii) (s : string) :
  (∀ x, x ∈ chars s → x ≠ c) → count_char c s = 0%nat.
Proof.
  induction s as [|x s IH]; [done|]. intros Hall.
  rewrite count_char_cons, IH.
  - rewrite decide_False; [done|]. apply Hall. by left.
  - intros y Hy. apply Hall. by right.
Qed.

Lemma cut_Some (stop : ascii → bool) (s a r : string) :
  Py.cut stop s = (a, Some r) →
  ∃ c0, stop c0 = true ∧ s = a +:+ String c0 r ∧
        ∀ x, x ∈ chars a → stop x = false.
Proof.
  revert a. induction s as [|x s IH]; intros a; simpl; [done|].
  destruct (stop x) eqn:Hx.
  - intros [= <- <-]. exists x. split_and!; [done..|]. by intros y ?%elem_of_nil.
  - destruct (Py.cut stop s) as [a' b'] eqn:Hcut. intros [= <- ->].
    destruct (IH a' eq_refl) as (c0 & Hc0 & -> & Ha').
    exists c0. split_and!; [done..|].
    intros y [->|Hy]%elem_of_cons; [done|by apply Ha'].
Qed.

Lemma cut_None (stop : ascii → bool) (s a : string) :
  Py.cut stop s = (a, None) → a = s ∧ ∀ x, x ∈ chars s → stop x = false.
Proof.
  revert a. induction s as [|x s IH]; intros a; simpl.
  - intros [= <-]. split; [done|]. by intros y ?%elem_of_nil.
  - destruct (stop x) eqn:Hx; [done|].
    destruct (Py.cut stop s) as [a' b'] eqn:Hcut. intros [= <- ->].
    destruct (IH a' eq_refl) as [-> Hs]. split; [done|].
    intros y [->|Hy]%elem_of_cons; [done|by apply Hs].
Qed.

Lemma digitpart_no_dot (s : string) (prev : bool) (ds : list Z) :
  Py.digitpart s prev = Some ds → count_char "." s = 0%nat.
Proof.
  revert prev ds. induction s as [|x s IH]; intros prev ds; [done|].
  simpl. rewrite count_char_cons.
  destruct (Py.is_digit x) eqn:Hd.
  - destruct (Py.digitpart s true) as [ds'|] eqn:Hs; [|done]. intros _.
    rewrite (IH _ _ Hs), decide_False; [done|]. by intros ->.
  - case_bool_decide as Hu; simpl; [|done]. destruct prev; simpl; [|done].
    intros Hs. rewrite (IH _ _ Hs), decide_False; [done|]. by subst x.
Qed.

Lemma opt_digitpart_no_dot (s : string) (ds : list Z) :
  Py.opt_digitpart s = Some ds → count_char "." s = 0%nat.
Proof. destruct s; [done|]. apply digitpart_no_dot. Qed.

Lemma split_sign_dots (s body : string) (neg : bool) :
  Py.split_sign s = (neg, body) → count_char "." s = count_char "." body.
Proof.
  unfold Py.split_sign. destruct s as [|x s]; [by intros [= <- <-]|].
  destruct (decide (x = "-"%char)) as [->|Hm]; [by intros [= <- <-]|].
  destruct (decide (x = "+"%char)) as [->|Hp]; [by intros [= <- <-]|].
  destruct x as [[] [] [] [] [] [] [] []]; try done; by intros [= <- <-].
Qed.

Lemma decimal_parts_dots (s : string) (m e : Z) :
  Py.decimal_parts s = Some (m, e) → (count_char "." s ≤ 1)%nat.
Proof.
  unfold Py.decimal_parts.
  destruct (Py.cut _ s) as [mant expo] eqn:Hcut.
  assert (count_char "." s
          = (count_char "." mant + from_option (count_char ".") 0 expo)%nat)
    as ->.
  { destruct expo as [x|].
    - apply cut_Some in Hcut as (c0 & Hc0 & -> & _).
      rewrite count_char_app, count_char_cons. simpl.
      rewrite decide_False; [done|]. by intros ->.
    - apply cut_None in Hcut as [-> _]. simpl. lia. }
  destruct (match expo with Some x => _ | None => Some 0 end) as [e'|] eqn:He;
    [|done].
  assert (from_option (count_char ".") 0%nat expo = 0%nat) as ->.
  { destruct expo as [x|]; [|done]. simpl.
    destruct (Py.split_sign x) as [neg x'] eqn:Hsign.
    destruct (Py.digitpart x' false) as [ds|] eqn:Hds; [|done].
    rewrite (split_sign_dots _ _ _ Hsign). by eapply digitpart_no_dot. }
  simpl. destruct (Py.cut Py.is_dot mant) as [ip fp] eqn:Hdot.
  fold Py.is_dot. rewrite Hdot. destruct fp as [f|].
  - apply cut_Some in Hdot as (c0 & Hc0 & -> & Hip).
    destruct (Py.opt_digitpart ip) as [ids|]; [|done]. simpl.
    destruct (Py.opt_digitpart f) as [fds|] eqn:Hf; [|done]. intros _.
    rewrite count_char_app, count_char_cons, (opt_digitpart_no_dot _ _ Hf).
    rewrite count_char_none.
    + case_decide; lia.
    + intros x Hx ->. by specialize (Hip _ Hx).
  - apply cut_None in Hdot as [-> Hmant]. intros _.
    rewrite count_char_none; [lia|]. intros x Hx ->. by specialize (Hmant _ Hx).
Qed.

Lemma lstrip_c_dots (s : string) :
  count_char "." (Py.lstrip_c s) = count_char "." s.
Proof.
  induction s as [|x s IH]; [done|]. simpl.
  destruct (Py.is_cspace x) eqn:Hx; [|done].
  rewrite IH, count_char_cons, decide_False; [done|]. by intros ->.
Qed.

Lemma rstrip_c_dots (s : string) :
  count_char "." (Py.rstrip_c s) = count_char "." s.
Proof.
  induction s as [|x s IH]; [done|]. simpl. rewrite count_char_cons, <-IH.
  destruct (Py.rstrip_c s) as [|y r].
  - destruct (Py.is_cspace x) eqn:Hx.
    + rewrite decide_False; [done|]. by intros ->.
    + by rewrite count_char_cons.
  - by rewrite (count_char_cons _ x).
Qed.

Lemma float_dots (s : string) (a : Qc) :
  Py.float s = Ok a → (count_char "." s ≤ 1)%nat.
Proof.
  unfold Py.float.
  destruct (Py.split_sign _) as [neg body] eqn:Hsign.
  destruct (Py.decimal_parts body) as [[m e]|] eqn:Hparts; [|done]. intros _.
  apply split_sign_dots in Hsign. rewrite rstrip_c_dots, lstrip_c_dots in Hsign.
  rewrite Hsign. by eapply decimal_parts_dots.
Qed.

Lemma float_abort (s : string) (e : abort) :
  Py.float s = Abort e → e = Raised ValueError.
Proof.
  unfold Py.float. destruct (Py.split_sign _) as [neg body].
  destruct (Py.decimal_parts body) as [[m e']|]; [done|]. by intros [= <-].
Qed.

Lemma replace_comma_dots (s : string) :
  count_char "." (Py.replace "," "." s)
  = (count_char "." s + count_char "," s)%nat.
Proof.
  induction s as [|x s IH]; [done|]. simpl.
  rewrite !count_char_cons, IH. case_bool_decide as Hx.
  - subst x. rewrite decide_True by done.
    rewrite (decide_False (P := ","%char = "."%char)) by done.
    rewrite decide_True by done. lia.
  - rewrite (decide_False (P := x = ","%char)) by done. lia.
Qed.

(** X8.  An amount text with two or more separators (dots and commas
    together), such as the German ["1.234,56"], is never parsed: both
    amount fields end the run with a [ValueError]. *)
Theorem gls_amount_two_separators (p : Payment) (v : string) :
  (2 ≤ count_char "." v + count_char "," v)%nat →
  gls_process_field p "Betrag" v = Abort (Raised ValueError) ∧
  gls_process_field p "Saldo nach Buchung" v = Abort (Raised ValueError).
Proof.
  intros Hsep.
  assert (Py.float (Py.replace "," "." v) = Abort (Raised ValueError)) as Hf.
  { destruct (Py.float _) as [a|e] eqn:Hfloat.
    - apply float_dots in Hfloat. rewrite replace_comma_dots in Hfloat. lia.
    - by rewrite (float_abort _ _ Hfloat). }
  unfold gls_process_field. simpl. by rewrite Hf.
Qed.

Lemma gls_amount_two_separators_witness :
  gls_process_field Payment_init "Betrag" "12.345.678,90"
  = Abort (Raised ValueError).
Proof.
  apply (gls_amount_two_separators Payment_init "12.345.678,90").
  vm_compute. lia.
Defined.

(** * Further properties of the ingestion *)

(** What one field can change of the category and of the date. *)
Lemma gls_process_field_attrs (p p' : Payment) (key value : string) :
  gls_process_field p key value = Ok p' →
  category p' = category p ∧
  (date p' = date p ∨ ∃ d, date p' = Some d ∧ 1 ≤ month d ≤ 12).
Proof.
  unfold gls_process_field.
  destruct (key_is key "Buchungstag").
  { destruct (Py.strptime value) as [d|] eqn:Hd; [|done]. simpl.
    intros [= <-]. split; [done|]. right. exists d. split; [done|].
    by eapply strptime_month. }
  repeat (destruct (key_is key _); simpl;
          [first [ by intros [= <-]; split; [|left]
                 | destruct (Py.float _); [|done]; simpl;
                   by intros [= <-]; split; [|left]
                 | destruct (negb _); [done|];
                   by intros [= <-]; split; [|left] ]|]).
  done.
Qed.

Lemma process_row_attrs (fp : field_processor) (items : odict)
    (p p' : Payment) :
  process_row fp p items = Ok p' →
  category p' = category p ∧ (valid_date p → valid_date p').
Proof.
  revert p. induction items as [|[k v] items IH]; intros p; simpl.
  - by intros [= <-].
  - destruct fp as [|name]; simpl; [|done].
    destruct (gls_process_field p k v) as [q|] eqn:Hq; [|done]. simpl.
    intros Hrow. change (process_row FP_gls q items = Ok p') in Hrow.
    destruct (IH q Hrow) as [Hc Hd].
    destruct (gls_process_field_attrs p q k v Hq) as [Hc' Hd'].
    split; [congruence|]. intros Hp. apply Hd.
    destruct Hd' as [Heq|(d & Hdq & Hm)]; intros d'; rewrite ?Heq; [apply Hp|].
    rewrite Hdq. by intros [= <-].
Qed.

(** The parser leaves the category unset and yields dates with a month
    between 1 and 12 only. *)
Lemma parse_csv_attrs (fs : gmap string string) (file col_sep row_sep : string)
    (fp : field_processor) (payments : list Payment) :
  parse_csv fs file col_sep row_sep fp = Ok payments →
  Forall (λ p, category p = None ∧ valid_date p) payments.
Proof.
  unfold parse_csv.
  destruct (keyed_rows fs file col_sep row_sep) as [rows|]; [|done]. simpl.
  intros Hmap%mapM_result_ok_inv.
  induction Hmap as [|row p rows ps Hrow _ IH]; constructor; [|done].
  apply process_row_attrs in Hrow as [Hc Hd]. split; [done|].
  apply Hd. by intros d.
Qed.

Lemma bucket_loop_all (rest : list Payment) (st st' : state) (r : result ()) :
  bucket_loop rest st = (st', r) → ALL_PAYMENTS st' = ALL_PAYMENTS st.
Proof.
  revert st. induction rest as [|p rest IH]; intros st; simpl.
  - by intros [= <- <-].
  - destruct (date p) as [d|]; [|by intros [= <- <-]].
    destruct (bucket_append _ _ _ _) as [by_year [[]|e]].
    + intros Hloop. by rewrite (IH _ Hloop).
    + by intros [= <- <-].
Qed.

Lemma process_payments_all (cfg : Config) (batch : list Payment)
    (st st' : state) :
  process_payments cfg batch st = (st', Ok ()) →
  ∃ batch', mapM (associate_category cfg) batch = Ok batch' ∧
            ALL_PAYMENTS st' = ALL_PAYMENTS st ++ batch'.
Proof.
  unfold process_payments.
  destruct (mapM (associate_category cfg) batch) as [batch'|]; [|done].
  intros Hloop. exists batch'. split; [done|].
  by rewrite (bucket_loop_all _ _ _ _ Hloop).
Qed.

Lemma process_csv_ingested (cfg : Config) (fs : gmap string string)
    (file col_sep row_sep : string) (fp : field_processor) (st st' : state) :
  consistent st → Forall (λ p, is_Some (category p)) (ALL_PAYMENTS st) →
  process_csv cfg fs file col_sep row_sep fp st = (st', Ok ()) →
  consistent st' ∧ Forall (λ p, is_Some (category p)) (ALL_PAYMENTS st') ∧
  ALL_PAYMENTS st `prefix_of` ALL_PAYMENTS st'.
Proof.
  intros Hcons Hcat. unfold process_csv.
  destruct (parse_csv fs file col_sep row_sep fp) as [payments|] eqn:Hparse;
    [|done].
  intros Hrun. apply parse_csv_attrs in Hparse.
  split_and!.
  - eapply process_payments_preserves; [done| |done].
    eapply Forall_impl; [exact Hparse|]. by intros p [_ ?].
  - apply process_payments_all in Hrun as (batch' & Hmap & ->).
    apply Forall_app. split; [done|]. apply mapM_result_ok_inv in Hmap.
    clear Hparse. induction Hmap as [|p p' l l' Hp _ IH]; constructor; [|done].
    apply associate_category_shape in Hp as [c ->]. by eexists.
  - apply process_payments_all in Hrun as (batch' & _ & ->).
    by apply prefix_app_r.
Qed.

Lemma process_files_ingested (cfg : Config) (fs : gmap string string)
    (files : list file_info) (st st' : state) :
  consistent st → Forall (λ p, is_Some (category p)) (ALL_PAYMENTS st) →
  process_files cfg fs files st = (st', Ok ()) →
  consistent st' ∧ Forall (λ p, is_Some (category p)) (ALL_PAYMENTS st') ∧
  ALL_PAYMENTS st `prefix_of` ALL_PAYMENTS st'.
Proof.
  revert st.
  induction files as [|info files IH]; intros st Hcons Hcat; simpl.
  - by intros [= <-].
  - destruct (process_csv _ _ _ _ _ _ st) as [st1 [[]|e]] eqn:Hcsv; [|done].
    intros Hrest.
    destruct (process_csv_ingested _ _ _ _ _ _ _ _ Hcons Hcat Hcsv)
      as (Hcons1 & Hcat1 & Hpre1).
    destruct (IH st1 Hcons1 Hcat1 Hrest) as (Hcons' & Hcat' & Hpre').
    split_and!; [done..|]. by etrans.
Qed.

(** X9.  From containers that agree, whenever all input files are
    ingested without an abort the containers agree again (every payment
    is in the bucket of its date, as often as in the global list), every
    payment of the global list has a category, and the payments that were
    in the global list before are still its first elements, in their
    order. *)
Theorem process_all_input_files_ingested (cfg : Config)
    (fs : gmap string string) (st st' : state) :
  consistent st → Forall (λ p, is_Some (category p)) (ALL_PAYMENTS st) →
  process_all_input_files cfg fs st = (st', Ok ()) →
  consistent st' ∧ Forall (λ p, is_Some (category p)) (ALL_PAYMENTS st') ∧
  ALL_PAYMENTS st `prefix_of` ALL_PAYMENTS st'.
Proof. apply process_files_ingested. Qed.

Lemma process_all_input_files_ingested_witness :
  let st' := (process_all_input_files Sample.cfg_unknown_processor
                Sample.fs_header_only initial_state).1 in
  consistent st' ∧ Forall (λ p, is_Some (category p)) (ALL_PAYMENTS st') ∧
  ALL_PAYMENTS initial_state `prefix_of` ALL_PAYMENTS st'.
Proof.
  apply (process_all_input_files_ingested Sample.cfg_unknown_processor
           Sample.fs_header_only initial_state).
  - exact initial_state_consistent.
  - constructor.
  - vm_compute. reflexivity.
Defined.

(** * Further properties of the aggregator *)

Lemma in_month_spec (y : Z) (i : nat) (p : Payment) (d : datetime) :
  date p = Some d →
  in_month y i p = true ↔ y = year d ∧ i = Z.to_nat (month d - 1).
Proof.
  intros Hd. unfold in_month. rewrite Hd, andb_true_iff, Z.eqb_eq, Nat.eqb_eq.
  split; intros [? ?]; by split.
Qed.

(** The buckets after the second loop of [process_payments]. *)
Lemma bucket_loop_buckets (rest : list Payment) (st : state) :
  Forall (λ p, date_ok p = true) rest →
  (∀ y months, PAYMENTS_BY_YEAR st !! y = Some months →
               length months = 12%nat) →
  ∃ st', bucket_loop rest st = (st', Ok ()) ∧
         ∀ y i, bucket_of st' y i
                = bucket_of st y i ++ filter (λ p, in_month y i p = true) rest.
Proof.
  intros Hrest. revert st.
  induction Hrest as [|p0 rest Hok _ IH]; intros st Hshape.
  - exists st. split; [done|]. intros y i. by rewrite app_nil_r.
  - simpl. destruct (date p0) as [d|] eqn:Hd;
      [|by unfold date_ok in Hok; rewrite Hd in Hok].
    pose proof (date_ok_month p0 d Hd Hok) as Hm.
    pose proof (year_buckets_length st (year d) Hshape) as Hlen.
    unfold bucket_append. rewrite Hlen, (py_index_month d Hm).
    set (st1 := mkState (ALL_PAYMENTS st) _).
    destruct (IH st1) as (st' & Hloop & Hbuckets).
    { intros y months. unfold st1. simpl.
      destruct (decide (y = year d)) as [->|Hy].
      - rewrite lookup_insert_eq. intros [= <-]. by rewrite length_alter.
      - rewrite lookup_insert_ne by done. apply Hshape. }
    exists st'. split; [done|]. intros y i. rewrite Hbuckets.
    unfold st1. rewrite bucket_of_append by lia.
    case_decide as Hpos.
    + rewrite filter_cons_True by by apply (in_month_spec y i p0 d Hd).
      destruct Hpos as [-> ->]. by rewrite <-app_assoc.
    + rewrite filter_cons_False; [done|].
      by rewrite (in_month_spec y i p0 d Hd).
Qed.

Lemma process_payments_buckets (cfg : Config) (batch batch' : list Payment)
    (st : state) :
  consistent st →
  mapM (associate_category cfg) batch = Ok batch' →
  Forall (λ p, date_ok p = true) batch' →
  ∃ st',
    process_payments cfg batch st = (st', Ok ()) ∧
    consistent st' ∧
    ALL_PAYMENTS st' = ALL_PAYMENTS st ++ batch' ∧
    ∀ y i, bucket_of st' y i
           = bucket_of st y i ++ filter (λ p, in_month y i p = true) batch'.
Proof.
  intros Hcons Hmap Hdates.
  destruct (process_payments_places cfg batch batch' st Hcons Hmap Hdates)
    as (st' & Hrun & Hcons' & Hall & _).
  exists st'. split_and!; [done..|].
  unfold process_payments in Hrun. rewrite Hmap in Hrun.
  destruct (bucket_loop_buckets batch'
              (mkState (ALL_PAYMENTS st ++ batch') (PAYMENTS_BY_YEAR st))
              Hdates (cons_shape _ Hcons)) as (st'' & Hloop & Hbuckets).
  rewrite Hrun in Hloop. injection Hloop as <-. exact Hbuckets.
Qed.

Lemma categorised_dates (cfg : Config) (batch batch' : list Payment) :
  Forall (λ p, date_ok p = true) batch →
  mapM (associate_category cfg) batch = Ok batch' →
  Forall (λ p, date_ok p = true) batch'.
Proof.
  intros Hdates Hmap%mapM_result_ok_inv.
  induction Hmap as [|p p' l l' Hp _ IH]; [done|].
  apply Forall_cons in Hdates as [Hok Hdates]. constructor; [|by apply IH].
  by apply associate_category_shape in Hp as [c ->].
Qed.

(** X10.  After a batch is ingested, each bucket holds what it held
    before, followed by the payments of the batch that are dated in its
    month, in the order of the batch. *)
Theorem process_payments_bucket_contents (cfg : Config)
    (batch batch' : list Payment) (st : state) :
  consistent st →
  Forall (λ p, date_ok p = true) batch →
  mapM (associate_category cfg) batch = Ok batch' →
  ∃ st',
    process_payments cfg batch st = (st', Ok ()) ∧
    ∀ y i, bucket_of st' y i
           = bucket_of st y i ++ filter (λ p, in_month y i p = true) batch'.
Proof.
  intros Hcons Hdates Hmap.
  pose proof (categorised_dates cfg batch batch' Hdates Hmap) as Hdates'.
  destruct (process_payments_buckets cfg batch batch' st Hcons Hmap Hdates')
    as (st' & Hrun & _ & _ & Hbuckets).
  by exists st'.
Qed.

Lemma process_payments_bucket_contents_witness :
  ∃ st',
    process_payments Sample.cfg Sample.batch initial_state = (st', Ok ()) ∧
    ∀ y i, bucket_of st' y i
           = bucket_of initial_state y i
             ++ filter (λ p, in_month y i p = true)
                  [set_category (Sample.on 2023 1 5 (-12.30) Sample.food) (Some "Food");
                   set_category (Sample.on 2023 1 10 (-400) Sample.rent) (Some "Rent");
                   set_category (Sample.on 2023 2 11 1234.56 Sample.salary) (Some "Salary")].
Proof.
  apply (process_payments_bucket_contents Sample.cfg Sample.batch).
  - exact initial_state_consistent.
  - repeat constructor.
  - reflexivity.
Defined.

(** X11.  Nothing is deduplicated: a batch ingested twice stands twice in
    the global list and twice in each of its buckets. *)
Theorem process_payments_twice (cfg : Config) (batch batch' : list Payment)
    (st : state) :
  consistent st →
  Forall (λ p, date_ok p = true) batch →
  mapM (associate_category cfg) batch = Ok batch' →
  ∃ st1 st2,
    process_payments cfg batch st = (st1, Ok ()) ∧
    process_payments cfg batch st1 = (st2, Ok ()) ∧
    ALL_PAYMENTS st2 = ALL_PAYMENTS st ++ batch' ++ batch' ∧
    ∀ y i, bucket_of st2 y i
           = bucket_of st y i
             ++ filter (λ p, in_month y i p = true) batch'
             ++ filter (λ p, in_month y i p = true) batch'.
Proof.
  intros Hcons Hdates Hmap.
  pose proof (categorised_dates cfg batch batch' Hdates Hmap) as Hdates'.
  destruct (process_payments_buckets cfg batch batch' st Hcons Hmap Hdates')
    as (st1 & Hrun1 & Hcons1 & Hall1 & Hbuckets1).
  destruct (process_payments_buckets cfg batch batch' st1 Hcons1 Hmap Hdates')
    as (st2 & Hrun2 & _ & Hall2 & Hbuckets2).
  exists st1, st2. split_and!; [done..| |].
  - by rewrite Hall2, Hall1, <-app_assoc.
  - intros y i. by rewrite Hbuckets2, Hbuckets1, <-app_assoc.
Qed.

Lemma process_payments_twice_witness :
  ∃ st1 st2,
    process_payments Sample.cfg Sample.batch initial_state = (st1, Ok ()) ∧
    process_payments Sample.cfg Sample.batch st1 = (st2, Ok ()) ∧
    length (ALL_PAYMENTS st2) = 6%nat.
Proof.
  destruct (process_payments_twice Sample.cfg Sample.batch
              [set_category (Sample.on 2023 1 5 (-12.30) Sample.food) (Some "Food");
               set_category (Sample.on 2023 1 10 (-400) Sample.rent) (Some "Rent");
               set_category (Sample.on 2023 2 11 1234.56 Sample.salary) (Some "Salary")]
              initial_state initial_state_consistent)
    as (st1 & st2 & H1 & H2 & Hall & _).
  - repeat constructor.
  - reflexivity.
  - exists st1, st2. split_and!; [done..|]. by rewrite Hall.
Defined.

Lemma category_total_app (l k : list Payment) (c : option string) :
  category_total (l ++ k) c = (category_total l c + category_total k c)%Qc.
Proof.
  unfold category_total. by rewrite filter_app, omap_app, sum_Qc_app.
Qed.

(** X12.  The order in which two batches are ingested changes the order
    of the payments and nothing else: the global lists are permutations
    of each other, so are the two versions of every bucket, and every
    bucket has the same sum for every category. *)
Theorem process_payments_order (cfg : Config) (A B A' B' : list Payment)
    (st : state) :
  consistent st →
  Forall (λ p, date_ok p = true) A → Forall (λ p, date_ok p = true) B →
  mapM (associate_category cfg) A = Ok A' →
  mapM (associate_category cfg) B = Ok B' →
  ∃ sa sab sb sba,
    process_payments cfg A st = (sa, Ok ()) ∧
    process_payments cfg B sa = (sab, Ok ()) ∧
    process_payments cfg B st = (sb, Ok ()) ∧
    process_payments cfg A sb = (sba, Ok ()) ∧
    ALL_PAYMENTS sab ≡ₚ ALL_PAYMENTS sba ∧
    ∀ y i, bucket_of sab y i ≡ₚ bucket_of sba y i ∧
           ∀ c, category_total (bucket_of sab y i) c
                = category_total (bucket_of sba y i) c.
Proof.
  intros Hcons HA HB HmA HmB.
  pose proof (categorised_dates cfg A A' HA HmA) as HA'.
  pose proof (categorised_dates cfg B B' HB HmB) as HB'.
  destruct (process_payments_buckets cfg A A' st Hcons HmA HA')
    as (sa & Hra & Hca & Halla & Hba).
  destruct (process_payments_buckets cfg B B' sa Hca HmB HB')
    as (sab & Hrab & _ & Hallab & Hbab).
  destruct (process_payments_buckets cfg B B' st Hcons HmB HB')
    as (sb & Hrb & Hcb & Hallb & Hbb).
  destruct (process_payments_buckets cfg A A' sb Hcb HmA HA')
    as (sba & Hrba & _ & Hallba & Hbba).
  exists sa, sab, sb, sba. split_and!; [done..| |].
  - rewrite Hallab, Halla, Hallba, Hallb, <-!app_assoc.
    f_equiv. apply Permutation_app_comm.
  - intros y i. rewrite Hbab, Hba, Hbba, Hbb, <-!app_assoc. split.
    + f_equiv. apply Permutation_app_comm.
    + intros c. rewrite !category_total_app. ring.
Qed.

Lemma process_payments_order_witness :
  ∃ sa sab sb sba,
    process_payments Sample.cfg Sample.january initial_state = (sa, Ok ()) ∧
    process_payments Sample.cfg Sample.february sa = (sab, Ok ()) ∧
    process_payments Sample.cfg Sample.february initial_state = (sb, Ok ()) ∧
    process_payments Sample.cfg Sample.january sb = (sba, Ok ()) ∧
    ALL_PAYMENTS sab ≡ₚ ALL_PAYMENTS sba.
Proof.
  destruct (process_payments_order Sample.cfg Sample.january Sample.february
              Sample.january Sample.february initial_state
              initial_state_consistent)
    as (sa & sab & sb & sba & H1 & H2 & H3 & H4 & H5 & _).
  - repeat constructor.
  - repeat constructor.
  - reflexivity.
  - reflexivity.
  - by exists sa, sab, sb, sba.
Defined.

(** * Properties of the reports *)

(** *** [in_out_year] *)

Lemma sum_amounts_if_ok (test : Qc → bool) (ps : list Payment) (acc : Qc) :
  Forall (λ p, is_Some (amount p)) ps →
  sum_amounts_if test ps acc
  = Ok (acc + sum_Qc (filter (λ a, test a = true) (omap amount ps)))%Qc.
Proof.
  intros Hps. revert acc.
  induction Hps as [|p ps [a Ha] _ IH]; intros acc.
  - cbn [sum_amounts_if]. f_equal. change (sum_Qc _) with 0%Qc. ring.
  - cbn [sum_amounts_if omap list_omap]. rewrite Ha.
    change (list_omap Payment Qc amount ps) with (omap amount ps).
    rewrite filter_cons. case_decide as Ht.
    + rewrite Ht, IH, sum_Qc_cons. f_equal. ring.
    + apply not_true_is_false in Ht. by rewrite Ht, IH.
Qed.

Lemma sum_amounts_if_none (test : Qc → bool) (ps : list Payment) (acc : Qc)
    (p : Payment) :
  p ∈ ps → amount p = None →
  sum_amounts_if test ps acc = Abort (Raised TypeError).
Proof.
  intros Hp Hnone. revert acc.
  induction ps as [|q ps IH]; intros acc; [by apply elem_of_nil in Hp|].
  cbn [sum_amounts_if]. apply elem_of_cons in Hp as [<-|Hp].
  - by rewrite Hnone.
  - destruct (amount q) as [a|]; [|done]. destruct (test a); by apply IH.
Qed.

Lemma sum_amounts_if_set (test : Qc → bool) (ps : list Payment) (acc r : Qc) :
  sum_amounts_if test ps acc = Ok r → Forall (λ p, is_Some (amount p)) ps.
Proof.
  revert acc. induction ps as [|q ps IH]; intros acc; [by constructor|].
  cbn [sum_amounts_if]. destruct (amount q) as [a|] eqn:Ha; [|done].
  intros Hrest. constructor; [by rewrite Ha; eexists|].
  destruct (test a); by eapply IH.
Qed.

Lemma sum_amounts_if_abort (test : Qc → bool) (ps : list Payment) (acc : Qc)
    (e : abort) :
  sum_amounts_if test ps acc = Abort e → e = Raised TypeError.
Proof.
  revert acc. induction ps as [|q ps IH]; intros acc; [done|].
  cbn [sum_amounts_if]. destruct (amount q) as [a|]; [|by intros [= <-]].
  destruct (test a); apply IH.
Qed.

Lemma in_out_month_ok (bucket : list Payment) :
  Forall (λ p, is_Some (amount p)) bucket →
  in_out_month bucket = Ok (plus_of bucket, minus_of bucket).
Proof.
  intros Hb. unfold in_out_month, plus_of, minus_of.
  rewrite !sum_amounts_if_ok by done. cbn [mbind result_bind].
  by rewrite !Qcplus_0_l.
Qed.





Lemma mapM_result_fmap {A B} (f : A → result B) (g : A → B) (l : list A) :
  (∀ x, x ∈ l → f x = Ok (g x)) → mapM f l = Ok (g <$> l).
Proof.
  induction l as [|x l IH]; intros Hall; [done|]. simpl.
  rewrite (Hall x) by by left. simpl. rewrite IH; [done|].
  intros y Hy. apply Hall. by right.
Qed.

Lemma mapM_result_abort_within {A B} (f : A → result B) (l : list A)
    (x : A) (e : abort) :
  x ∈ l → f x = Abort e →
  (∀ y e', y ∈ l → f y = Abort e' → e' = e) →
  mapM f l = Abort e.
Proof.
  intros Hx Hfx Hall. induction l as [|a l IH]; [by apply elem_of_nil in Hx|].
  simpl. destruct (f a) as [b|e'] eqn:Hfa; simpl.
  - apply elem_of_cons in Hx as [->|Hx]; [congruence|]. rewrite IH; [done..|].
    intros y e' Hy. apply Hall. by right.
  - rewrite (Hall a e'); [done|by left|done].
Qed.



Lemma month_bucket_year (st : state) (y : Z) (i : nat) :
  consistent st → (i < 12)%nat →
  month_bucket (year_buckets (PAYMENTS_BY_YEAR st) y) i
  = Ok (bucket_of st y i).
Proof.
  intros Hcons Hi. unfold month_bucket, bucket_of.
  destruct (lookup_lt_is_Some_2 (year_buckets (PAYMENTS_BY_YEAR st) y) i)
    as [b ->]; [|done].
  rewrite year_buckets_length; [done|]. apply (cons_shape _ Hcons).
Qed.

Lemma in_out_year_unfold (y : Z) (st : state) :
  in_out_year y st
  = ((read_year y st).1,
     mapM (λ i, bucket ← month_bucket (year_buckets (PAYMENTS_BY_YEAR st) y) i;
                in_out_month bucket) (seq 0 12)).
Proof. reflexivity. Qed.



(** X14.  A payment without amount (a file without the column [Betrag])
    in one of the buckets of the year ends [in_out_year] with a
    [TypeError]. *)
Theorem in_out_year_no_amount (y : Z) (st : state) (i : nat) (p : Payment) :
  consistent st → p ∈ bucket_of st y i → amount p = None →
  (in_out_year y st).2 = Abort (Raised TypeError).
Proof.
  intros Hcons Hp Hnone.
  assert (i < 12)%nat as Hi.
  { unfold bucket_of in Hp.
    destruct (year_buckets _ y !! i) as [b|] eqn:Hb;
      [|by apply elem_of_nil in Hp].
    apply lookup_lt_Some in Hb.
    by rewrite year_buckets_length in Hb by apply (cons_shape _ Hcons). }
  rewrite in_out_year_unfold. cbn [snd].
  apply (mapM_result_abort_within _ _ i).
  - apply elem_of_seq. lia.
  - rewrite month_bucket_year by done. cbn [mbind result_bind].
    unfold in_out_month.
    rewrite (sum_amounts_if_none is_positive _ _ p Hp Hnone). reflexivity.
  - intros j e' [_ Hj]%elem_of_seq.
    rewrite month_bucket_year by (done || lia). cbn [mbind result_bind].
    unfold in_out_month.
    destruct (sum_amounts_if is_positive _ _) as [plus|e1] eqn:Hplus.
    + cbn [mbind result_bind].
      apply sum_amounts_if_set in Hplus.
      rewrite (sum_amounts_if_ok is_negative _ _ Hplus). done.
    + cbn [mbind result_bind]. intros [= <-].
      by eapply sum_amounts_if_abort.
Qed.

(** *** The table of [in_out_year] and the chart *)





(** *** [show_current_amount] *)

Lemma datetime_lt_spec (a b : datetime) :
  datetime_lt a b = true ↔
  year a < year b ∨
  (year a = year b ∧
   (month a < month b ∨ (month a = month b ∧ day a < day b))).
Proof.
  unfold datetime_lt.
  rewrite !orb_true_iff, !andb_true_iff, !orb_true_iff, !andb_true_iff.
  rewrite !Z.ltb_lt, !Z.eqb_eq. tauto.
Qed.

Lemma datetime_le_trans (a b c : datetime) :
  datetime_lt b a = false → datetime_lt c b = false →
  datetime_lt c a = false.
Proof.
  intros Hab Hbc. apply not_true_iff_false. apply not_true_iff_false in Hab, Hbc.
  rewrite datetime_lt_spec in *. lia.
Qed.

Lemma datetime_lt_le (a b : datetime) :
  datetime_lt a b = true → datetime_lt b a = false.
Proof.
  intros Hab. apply not_true_iff_false. rewrite datetime_lt_spec in *. lia.
Qed.

Lemma insert_dated_elem (x y : Payment * datetime)
    (s : list (Payment * datetime)) :
  y ∈ insert_dated x s ↔ y = x ∨ y ∈ s.
Proof.
  induction s as [|z s IH]; simpl.
  - rewrite list_elem_of_singleton, elem_of_nil. tauto.
  - destruct (datetime_lt z.2 x.2); rewrite !elem_of_cons, ?IH; tauto.
Qed.

Lemma insert_dated_sorted (x : Payment * datetime)
    (s : list (Payment * datetime)) :
  StronglySorted (λ a b, datetime_lt b.2 a.2 = false) s →
  StronglySorted (λ a b, datetime_lt b.2 a.2 = false) (insert_dated x s).
Proof.
  induction 1 as [|z s Hs IH Hz]; simpl.
  - by repeat constructor.
  - destruct (datetime_lt z.2 x.2) eqn:Hzx.
    + constructor; [done|]. apply Forall_forall.
      intros y [->|Hy]%insert_dated_elem.
      * by apply datetime_lt_le.
      * by eapply Forall_forall in Hz.
    + constructor; [by constructor|]. constructor; [done|].
      eapply Forall_impl; [exact Hz|]. simpl. intros y Hy.
      by eapply datetime_le_trans.
Qed.

Lemma sort_dated_sorted (l : list (Payment * datetime)) :
  StronglySorted (λ a b, datetime_lt b.2 a.2 = false) (sort_dated l).
Proof.
  induction l as [|x l IH]; [constructor|]. by apply insert_dated_sorted.
Qed.

Lemma sort_dated_elem (l : list (Payment * datetime)) (y : Payment * datetime) :
  y ∈ sort_dated l ↔ y ∈ l.
Proof.
  induction l as [|x l IH]; [done|]. simpl.
  by rewrite insert_dated_elem, elem_of_cons, IH.
Qed.

(** Where [x] ends up decides the last element: [x] is last exactly when
    the last element so far has a smaller date. *)
Lemma last_insert_dated (x : Payment * datetime)
    (s : list (Payment * datetime)) :
  StronglySorted (λ a b, datetime_lt b.2 a.2 = false) s →
  last (insert_dated x s)
  = match last s with
    | None => Some x
    | Some l => if datetime_lt l.2 x.2 then Some x else Some l
    end.
Proof.
  induction 1 as [|z s Hs IH Hz]; [done|]. simpl.
  destruct (datetime_lt z.2 x.2) eqn:Hzx.
  - rewrite !last_cons, IH. destruct (last s) as [l|]; [|by rewrite Hzx].
    by destruct (datetime_lt l.2 x.2).
  - rewrite last_cons_cons, last_cons.
    destruct (last s) as [l'|] eqn:Hl'; [|by rewrite Hzx].
    apply last_Some in Hl' as [s' ->].
    rewrite Forall_app, Forall_singleton in Hz. destruct Hz as [_ Hz].
    by rewrite (datetime_le_trans x.2 z.2 l'.2 Hzx Hz).
Qed.

Lemma last_sort_dated (pre post : list (Payment * datetime))
    (x : Payment * datetime) :
  Forall (λ q, datetime_lt x.2 q.2 = false) pre →
  Forall (λ q, datetime_lt q.2 x.2 = true) post →
  last (sort_dated (pre ++ x :: post)) = Some x.
Proof.
  intros Hpre Hpost. induction Hpre as [|q pre Hq _ IH].
  - simpl. rewrite last_insert_dated by apply sort_dated_sorted.
    destruct (last (sort_dated post)) as [l|] eqn:Hl; [|done].
    assert (l ∈ post) as Hin.
    { apply sort_dated_elem. apply last_Some in Hl as [s' ->].
      apply elem_of_app. right. by left. }
    eapply Forall_forall in Hpost; [|done]. simpl in Hpost. by rewrite Hpost.
  - simpl. rewrite last_insert_dated by apply sort_dated_sorted.
    change (foldr insert_dated [] (pre ++ x :: post))
      with (sort_dated (pre ++ x :: post)).
    by rewrite IH, Hq.
Qed.

Lemma dated_list (P : datetime → Prop) (l : list Payment) :
  Forall (λ q, ∃ dq, date q = Some dq ∧ P dq) l →
  ∃ dl, Forall2 (λ q y, dated q = Some y) l dl ∧ Forall (λ y, P y.2) dl.
Proof.
  induction 1 as [|q l (dq & Hq & HP) _ (dl & Hdl & HPl)].
  - exists []. by split; constructor.
  - exists ((q, dq) :: dl). split; constructor; try done.
    unfold dated. by rewrite Hq.
Qed.

(** X16.  The balance shown is the one of the payment with the latest
    date; of several payments on that date it is the one ingested last.
    That is: of the payment [p] of the global list such that no earlier
    element has a later date and every later element an earlier date. *)
Theorem show_current_amount_latest (st : state) (pre post : list Payment)
    (p : Payment) (d : datetime) (a : Qc) :
  ALL_PAYMENTS st = pre ++ p :: post →
  date p = Some d → amount_left p = Some a →
  Forall (λ q, ∃ dq, date q = Some dq ∧ datetime_lt d dq = false) pre →
  Forall (λ q, ∃ dq, date q = Some dq ∧ datetime_lt dq d = true) post →
  show_current_amount st = Ok a.
Proof.
  intros Hall Hd Ha Hpre Hpost. unfold show_current_amount.
  assert (∃ l, sorted_by_date (ALL_PAYMENTS st) = Ok l ∧ last l = Some p)
    as (l & -> & Hlast).
  { unfold sorted_by_date. rewrite Hall.
    destruct (_ <? _)%nat eqn:Hlen.
    - apply Nat.ltb_lt in Hlen. rewrite length_app in Hlen. simpl in Hlen.
      destruct pre; [|simpl in Hlen; lia]. destruct post; [|simpl in Hlen; lia].
      by eexists.
    - destruct (dated_list _ _ Hpre) as (dpre & H2pre & Hdpre).
      destruct (dated_list _ _ Hpost) as (dpost & H2post & Hdpost).
      assert (mapM dated (pre ++ p :: post) = Some (dpre ++ (p, d) :: dpost))
        as ->.
      { apply mapM_Some. apply Forall2_app; [done|]. constructor; [|done].
        unfold dated. by rewrite Hd. }
      eexists. split; [done|].
      by rewrite fmap_last, (last_sort_dated dpre dpost (p, d)). }
  cbn [mbind result_bind]. by rewrite Hlast, Ha.
Qed.

Lemma show_current_amount_latest_witness :
  show_current_amount Demo.ledger = Ok (Q2Qc 70).
Proof.
  apply (show_current_amount_latest Demo.ledger
           [Demo.entry 2023 1 5 100; Demo.entry 2023 2 11 50]
           [Demo.entry 2023 1 10 20] (Demo.entry 2023 2 11 70)
           (mkDatetime 2023 2 11)).
  - reflexivity.
  - reflexivity.
  - reflexivity.
  - repeat (constructor; [by eexists|]). constructor.
  - repeat (constructor; [by eexists|]). constructor.
Defined.

Lemma in_out_year_no_amount_witness :
  (in_out_year 2023
     (process_payments Sample.cfg [Demo.bare] initial_state).1).2
  = Abort (Raised TypeError).
Proof.
  apply (in_out_year_no_amount 2023 _ 0 (set_category Demo.bare (Some "Food"))).
  - apply (process_payments_preserves Sample.cfg [Demo.bare] initial_state).
    + exact initial_state_consistent.
    + constructor; [|constructor]. intros d [= <-]. simpl. lia.
    + reflexivity.
  - apply list_elem_of_In. vm_compute. by left.
  - reflexivity.
Defined.

(** * The colours of the chart *)

Lemma odict_get_None (d : odict) (k : string) :
  k ∉ odict_keys d → odict_get d k = None.
Proof.
  unfold odict_keys, odict_get. induction d as [|[k' c'] d IH]; [done|].
  rewrite fmap_cons. simpl. intros [Hne Hk]%not_elem_of_cons.
  rewrite bool_decide_eq_false_2 by done. by apply IH.
Qed.

Lemma initial_colors_lookup (color_default : option string) (n i : nat) :
  (i < n)%nat →
  initial_colors color_default n !! i
  = Some (default (cycle_color i) color_default).
Proof.
  intros Hi. unfold initial_colors.
  rewrite list_lookup_fmap, lookup_seq_lt by done. simpl.
  by destruct color_default.
Qed.

(** The colour at the position of a category after the configured colours
    were written over [colors]. *)
Lemma assign_colors_lookup (category_colors : odict)
    (cats : list (option string)) (colors : list string) (i : nat)
    (c : option string) (col : string) :
  NoDup cats → NoDup (odict_keys category_colors) →
  length colors = length cats →
  cats !! i = Some c → colors !! i = Some col →
  assign_colors category_colors cats colors !! i
  = Some (default col (c ≫= odict_get category_colors)).
Proof.
  intros Hcats Hkeys Hlen Hc. revert colors col Hlen.
  induction category_colors as [|[k color] rest IH]; intros colors col Hlen Hcol.
  - cbn [assign_colors]. rewrite Hcol. by destruct c.
  - unfold odict_keys in Hkeys. rewrite fmap_cons in Hkeys.
    apply NoDup_cons in Hkeys as [Hk Hrest]. cbn [assign_colors].
    destruct (decide (c = Some k)) as [->|Hne].
    + assert (list_find (λ c, c = Some k) cats = Some (i, Some k)) as ->.
      { apply list_find_Some. split_and!; [done..|].
        intros j y Hj Hlt ->. pose proof (NoDup_lookup _ _ _ _ Hcats Hc Hj).
        lia. }
      erewrite IH; [|done|by rewrite length_insert|].
      * simpl. unfold odict_get at 2. simpl.
        rewrite bool_decide_eq_true_2 by done. simpl.
        by rewrite (odict_get_None rest k Hk).
      * apply list_lookup_insert_eq. rewrite Hlen.
        by eapply lookup_lt_Some.
    + assert (c ≫= odict_get ((k, color) :: rest) = c ≫= odict_get rest) as ->.
      { destruct c as [k'|]; [|done]. simpl. unfold odict_get. simpl.
        rewrite bool_decide_eq_false_2; [done|]. congruence. }
      destruct (list_find _ cats) as [[j y]|] eqn:Hfind.
      * apply list_find_Some in Hfind as (Hj & -> & _).
        apply IH; [done|by rewrite length_insert|].
        rewrite list_lookup_insert_ne; [done|]. intros ->. congruence.
      * by apply IH.
Qed.

Lemma category_loop_colors (x : Z) (bucket : list Payment)
    (cats : list (option string)) (colors : list string) (index : nat)
    (bp0 tn0 : Qc) (bars : list bar) (bp tn : Qc) :
  category_loop x bucket cats colors index bp0 tn0 = Ok (bars, bp, tn) →
  ∀ i b, bars !! i = Some b →
         is_Some (cats !! i) ∧ colors !! (index + i)%nat = Some (bar_color b).
Proof.
  revert index bp0 tn0 bars.
  induction cats as [|cat cats IH]; intros index bp0 tn0 bars.
  - cbn [category_loop]. by intros [= <- <- <-] i b.
  - cbn [category_loop].
    destruct (category_sum bucket cat) as [Σ|]; [|done].
    cbn [mbind result_bind].
    destruct (colors !! index) as [color|] eqn:Hcolor; [|done].
    cbn [mbind result_bind].
    destruct (decide (0 ≤ Σ)%Qc);
      (destruct (category_loop _ _ _ _ _ _ _) as [[[bars' bp'] tn']|] eqn:Hrest;
         [|done]);
      cbn [mbind result_bind]; intros [= <- <- <-] i b Hb;
      (destruct i as [|i];
         [injection Hb as <-; split; [by eexists|];
          by rewrite Nat.add_0_r
         |replace (index + S i)%nat with (S index + i)%nat by lia;
          by apply (IH _ _ _ _ Hrest)]).
Qed.

Section Chart.
Variable list_set : list (option string) → list (option string).
Hypothesis list_set_spec :
  ∀ xs, NoDup (list_set xs) ∧ ∀ x, x ∈ list_set xs ↔ x ∈ xs.

(** How [overview_year] runs on twelve buckets whose amounts are set. *)
Lemma overview_year_run (year : Z) (payments : list (list Payment))
    (category_colors : odict) (color_default : option string) :
  length payments = 12%nat →
  Forall (Forall (λ p, is_Some (amount p))) payments →
  ∃ bars,
    discovered_categories list_set payments
    = Ok (list_set (category <$> concat payments)) ∧
    overview_year list_set year payments category_colors color_default
    = Ok bars ∧
    (∀ M, (12 ≤ M)%nat → bars_of_month M bars = []) ∧
    ∀ M bucket, payments !! M = Some bucket →
      ∃ bp tn,
        month_layout M bucket (list_set (category <$> concat payments))
          (assign_colors category_colors
             (list_set (category <$> concat payments))
             (initial_colors color_default
                (length (list_set (category <$> concat payments)))))
        = Ok (bars_of_month M bars, bp, tn).
Proof.
  intros Hlen Hamounts.
  assert (mapM (month_bucket payments) (seq 0 12) = Ok payments) as Hbuckets.
  { rewrite mapM_month_bucket by lia. by rewrite drop_0, take_ge by lia. }
  set (cats := list_set (category <$> concat payments)).
  assert (discovered_categories list_set payments = Ok cats) as Hcats.
  { unfold discovered_categories. by rewrite Hbuckets. }
  set (colors := assign_colors category_colors cats
                   (initial_colors color_default (length cats))).
  destruct (months_loop_spec (seq 0 12) payments cats colors)
    as (bars & Hbars & Hout & Hin).
  { apply Forall_forall. intros m [_ Hm]%elem_of_seq.
    apply lookup_lt_is_Some_2. lia. }
  { done. }
  { unfold colors. by rewrite length_assign_colors, length_initial_colors. }
  exists bars. split_and!.
  - done.
  - unfold overview_year. by rewrite Hcats.
  - intros M HM. apply Hout. rewrite elem_of_seq. lia.
  - intros M bucket HM. apply (Hin (NoDup_seq 0 12)); [|done].
    apply elem_of_seq. apply lookup_lt_Some in HM. lia.
Qed.

(** X17.  Every bar has the colour of its category: the colour configured
    for it in [category colors]; without one the default colour; without
    that ["C"] followed by the position of the category among the
    discovered ones. *)
Theorem overview_year_colors (year : Z) (payments : list (list Payment))
    (category_colors : odict) (color_default : option string) :
  length payments = 12%nat →
  Forall (Forall (λ p, is_Some (amount p))) payments →
  NoDup (odict_keys category_colors) →
  ∃ cats bars,
    discovered_categories list_set payments = Ok cats ∧
    overview_year list_set year payments category_colors color_default
    = Ok bars ∧
    ∀ M i b, bars_of_month M bars !! i = Some b →
      ∃ c, cats !! i = Some c ∧
           bar_color b = expected_color category_colors color_default i c.
Proof.
  intros Hlen Hamounts Hkeys.
  destruct (overview_year_run year payments category_colors color_default
              Hlen Hamounts) as (bars & Hcats & Hrun & Hout & Hin).
  eexists _, bars. split_and!; [done..|].
  intros M i b Hb.
  destruct (decide (M < 12)%nat) as [HM|HM];
    [|by rewrite Hout in Hb by lia].
  destruct (lookup_lt_is_Some_2 payments M) as [bucket Hbucket]; [lia|].
  destruct (Hin M bucket Hbucket) as (bp & tn & Hlayout).
  destruct (category_loop_colors _ _ _ _ _ _ _ _ _ _ Hlayout i b Hb)
    as [[c Hc] Hcolor].
  exists c. split; [done|]. simpl in Hcolor.
  erewrite assign_colors_lookup in Hcolor;
    [|apply list_set_spec|done|by rewrite length_initial_colors|done|].
  - injection Hcolor as <-. unfold expected_color.
    by destruct (c ≫= odict_get category_colors).
  - apply initial_colors_lookup. by eapply lookup_lt_Some.
Qed.

(** X18.  For a year none of whose buckets holds a payment, [show_year]
    draws no bar, and it does not fail. *)
Theorem show_year_empty (cfg : Config) (y : Z) (st : state) :
  consistent st → (∀ i, bucket_of st y i = []) →
  show_year list_set cfg y st = Ok [].
Proof.
  intros Hcons Hempty.
  assert (year_buckets (PAYMENTS_BY_YEAR st) y = replicate 12 []) as Hyear.
  { apply list_eq_same_length with 12%nat.
    - by rewrite length_replicate.
    - apply year_buckets_length, (cons_shape _ Hcons).
    - intros i b b' Hi Hb Hb'. apply lookup_replicate in Hb' as [-> _].
      specialize (Hempty i). unfold bucket_of in Hempty.
      by rewrite Hb in Hempty. }
  unfold show_year, overview_year, discovered_categories. rewrite Hyear.
  assert (list_set [] = []) as Hnil.
  { destruct (list_set []) as [|x l] eqn:Hl; [done|].
    destruct (list_set_spec []) as [_ Hx]. rewrite Hl in Hx.
    exfalso. eapply elem_of_nil, Hx. by left. }
  cbn. rewrite Hnil. by cbn.
Qed.

End Chart.

Lemma list_set_remove_dups (xs : list (option string)) :
  NoDup (remove_dups xs) ∧ ∀ x, x ∈ remove_dups xs ↔ x ∈ xs.
Proof.
  split; [apply NoDup_remove_dups|]. intros x. apply elem_of_remove_dups.
Qed.

Lemma overview_year_colors_witness :
  ∃ cats bars,
    discovered_categories remove_dups Sample.year2023 = Ok cats ∧
    overview_year remove_dups 2023 Sample.year2023
      [("Food", "green"); ("Nope", "black")] None = Ok bars ∧
    ∀ M i b, bars_of_month M bars !! i = Some b →
      ∃ c, cats !! i = Some c ∧
           bar_color b
           = expected_color [("Food", "green"); ("Nope", "black")] None i c.
Proof.
  apply (overview_year_colors remove_dups list_set_remove_dups).
  - reflexivity.
  - repeat (constructor; [repeat (constructor; [by eexists|]); constructor|]).
    constructor.
  - exact (bool_decide_eq_true_1 (NoDup ["Food"; "Nope"]) eq_refl).
Defined.

Lemma show_year_empty_witness :
  show_year remove_dups Sample.cfg 1999 initial_state = Ok [].
Proof.
  apply (show_year_empty remove_dups list_set_remove_dups).
  - exact initial_state_consistent.
  - intros i. apply bucket_of_initial.
Defined.

(** * A complete run *)

(** A payment found in a bucket is in the global list. *)
Lemma consistent_bucket_all (st : state) (y : Z) (i : nat) (p : Payment) :
  consistent st → p ∈ bucket_of st y i → p ∈ ALL_PAYMENTS st.
Proof.
  intros Hcons Hp. apply occurrences_pos. rewrite (cons_count _ Hcons).
  apply occurrences_pos.
  assert (i < 12)%nat as Hi.
  { unfold bucket_of in Hp.
    destruct (year_buckets _ y !! i) as [b|] eqn:Hb;
      [|by apply elem_of_nil in Hp].
    apply lookup_lt_Some in Hb.
    by rewrite year_buckets_length in Hb by apply (cons_shape _ Hcons). }
  destruct (cons_place _ Hcons y i p Hp) as (d & Hd & <- & Hm).
  unfold home, date_ok. rewrite Hd.
  replace ((1 <=? month d) && (month d <=? 12)) with true
    by (symmetry; apply andb_true_iff; split; apply Z.leb_le; lia).
  by rewrite Hm, Nat2Z.id.
Qed.

(** A payment of the global list has a date and is in the bucket of that
    date, whose year has an entry. *)
Lemma consistent_all_bucket (st : state) (p : Payment) :
  consistent st → p ∈ ALL_PAYMENTS st →
  ∃ d i, date p = Some d ∧ p ∈ bucket_of st (year d) i ∧
         is_Some (PAYMENTS_BY_YEAR st !! year d).
Proof.
  intros Hcons Hp. apply occurrences_pos in Hp.
  rewrite (cons_count _ Hcons) in Hp. apply occurrences_pos in Hp.
  unfold home in Hp. destruct (date p) as [d|]; [|by apply elem_of_nil in Hp].
  destruct (date_ok p); [|by apply elem_of_nil in Hp].
  exists d, (Z.to_nat (month d - 1)). split_and!; [done..|].
  unfold bucket_of, year_buckets in Hp.
  destruct (PAYMENTS_BY_YEAR st !! year d) as [months|]; [by eexists|].
  change (default (replicate 12 []) None)
    with (replicate 12 (@nil Payment)) in Hp.
  destruct (replicate 12 (@nil Payment) !! Z.to_nat (month d - 1))
    as [b|] eqn:Hb; [|by apply elem_of_nil in Hp].
  apply lookup_replicate in Hb as [-> _]. by apply elem_of_nil in Hp.
Qed.

Lemma in_out_year_ok (y : Z) (st : state) :
  consistent st →
  Forall (λ p, is_Some (amount p)) (ALL_PAYMENTS st) →
  is_ok (in_out_year y st).2 = true.
Proof.
  intros Hcons Hamounts. rewrite in_out_year_unfold. cbn [snd].
  erewrite mapM_result_fmap; [done|]. intros i [_ Hi]%elem_of_seq.
  rewrite month_bucket_year by (done || lia). cbn [mbind result_bind].
  apply in_out_month_ok, Forall_forall. intros p Hp.
  eapply Forall_forall in Hamounts; [done|].
  by eapply consistent_bucket_all.
Qed.

Lemma mapM_result_abort_inv {A B} (f : A → result B) (l : list A) (e : abort) :
  mapM f l = Abort e → ∃ x, x ∈ l ∧ f x = Abort e.
Proof.
  induction l as [|x l IH]; [done|]. simpl.
  destruct (f x) as [y|e1] eqn:Hx; cbn [mbind result_bind].
  - destruct (mapM f l) as [ys|e2]; [done|]. cbn [mbind result_bind].
    intros [= ->]. destruct (IH eq_refl) as (z & Hz & Hfz).
    exists z. split; [by right|done].
  - intros [= ->]. exists x. split; [by left|done].
Qed.

(** [in_out_year] stops with a [TypeError] or not at all. *)
Lemma in_out_year_abort (y : Z) (st : state) (e : abort) :
  consistent st → (in_out_year y st).2 = Abort e → e = Raised TypeError.
Proof.
  intros Hcons. rewrite in_out_year_unfold. cbn [snd].
  destruct (mapM _ (seq 0 12)) as [t|e'] eqn:Hmap; [done|]. intros [= ->].
  apply mapM_result_abort_inv in Hmap as (i & [_ Hi]%elem_of_seq & Hf).
  rewrite month_bucket_year in Hf by (done || lia).
  cbn [mbind result_bind] in Hf. unfold in_out_month in Hf.
  destruct (sum_amounts_if is_positive _ _) as [plus|e1] eqn:Hplus.
  - cbn [mbind result_bind] in Hf. apply sum_amounts_if_set in Hplus.
    by rewrite (sum_amounts_if_ok is_negative _ _ Hplus) in Hf.
  - cbn [mbind result_bind] in Hf. injection Hf as <-.
    by eapply sum_amounts_if_abort.
Qed.

(** When [in_out_year] prints its table, every amount of the year is set. *)
Lemma in_out_year_ok_inv (y : Z) (st : state) (i : nat) (p : Payment) :
  consistent st → is_ok (in_out_year y st).2 = true →
  p ∈ bucket_of st y i → is_Some (amount p).
Proof.
  intros Hcons Hok Hp.
  assert (i < 12)%nat as Hi.
  { unfold bucket_of in Hp.
    destruct (year_buckets _ y !! i) as [b|] eqn:Hb;
      [|by apply elem_of_nil in Hp].
    apply lookup_lt_Some in Hb.
    by rewrite year_buckets_length in Hb by apply (cons_shape _ Hcons). }
  rewrite in_out_year_unfold in Hok. cbn [snd] in Hok.
  destruct (mapM _ (seq 0 12)) as [t|] eqn:Hmap; [|done].
  apply mapM_result_ok_inv in Hmap.
  destruct (Forall2_lookup_l _ _ _ i i Hmap) as (r & _ & Hr).
  { apply lookup_seq. lia. }
  simpl in Hr. rewrite month_bucket_year in Hr by done.
  cbn [mbind result_bind] in Hr. unfold in_out_month in Hr.
  destruct (sum_amounts_if is_positive _ _) as [plus|] eqn:Hplus; [|done].
  apply sum_amounts_if_set in Hplus. by eapply Forall_forall in Hplus.
Qed.


Section Run.
Variable list_set : list (option string) → list (option string).
Hypothesis list_set_spec :
  ∀ xs, NoDup (list_set xs) ∧ ∀ x, x ∈ list_set xs ↔ x ∈ xs.

(** X19.  When the input files are ingested and hold no payment (no input
    file, or only header lines), the run ends in an [IndexError]: the
    tables are printed for no year and [show_current_amount] takes the
    last element of an empty list. *)
Theorem main_no_payment (cfg : Config) (fs : gmap string string) (shown : Z)
    (st : state) :
  process_all_input_files cfg fs initial_state = (st, Ok ()) →
  ALL_PAYMENTS st = [] →
  main list_set cfg fs shown = Abort (Raised IndexError).
Proof.
  intros Hrun Hnone. unfold main. rewrite Hrun.
  destruct (process_files_ingested _ _ _ _ _ initial_state_consistent
              (Forall_nil_2 _) Hrun) as (Hcons & _ & _).
  assert (is_ok (mapM (λ y, t ← (in_out_year y st).2; Ok (y, t))
                      (map_to_list (PAYMENTS_BY_YEAR st)).*1) = true) as Hok.
  { destruct (mapM_result_ok (λ y, t ← (in_out_year y st).2; Ok (y, t))
                (map_to_list (PAYMENTS_BY_YEAR st)).*1) as (ts & -> & _);
      [|done].
    apply Forall_forall. intros y _.
    pose proof (in_out_year_ok y st Hcons) as Hy. rewrite Hnone in Hy.
    specialize (Hy (Forall_nil_2 _)).
    by destruct (in_out_year y st).2. }
  destruct (mapM _ _) as [ts|]; [|done]. cbn [mbind result_bind].
  unfold show_current_amount. by rewrite Hnone.
Qed.


(** X21.  When the input files are ingested and one payment has no amount
    (its file has no column [Betrag]), the run ends in a [TypeError] while
    the tables are printed: nothing is drawn. *)
Theorem main_no_amount (cfg : Config) (fs : gmap string string) (shown : Z)
    (st : state) (p : Payment) :
  process_all_input_files cfg fs initial_state = (st, Ok ()) →
  p ∈ ALL_PAYMENTS st → amount p = None →
  main list_set cfg fs shown = Abort (Raised TypeError).
Proof.
  intros Hrun Hp Hnone. unfold main. rewrite Hrun.
  destruct (process_files_ingested _ _ _ _ _ initial_state_consistent
              (Forall_nil_2 _) Hrun) as (Hcons & _ & _).
  destruct (consistent_all_bucket st p Hcons Hp) as (d & i & Hd & Hin & Hkey).
  rewrite (mapM_result_abort_within _ _ (year d) (Raised TypeError)); [done|..].
  - destruct Hkey as [months Hmonths].
    apply list_elem_of_fmap. exists (year d, months). split; [done|].
    by apply elem_of_map_to_list.
  - destruct (in_out_year (year d) st).2 as [t|e] eqn:Hy.
    + destruct (in_out_year_ok_inv (year d) st i p Hcons) as [a Ha];
        [by rewrite Hy|done|congruence].
    + cbn [mbind result_bind]. f_equal. by eapply in_out_year_abort.
  - intros y e' _. destruct (in_out_year y st).2 as [t|e] eqn:Hy; [done|].
    cbn [mbind result_bind]. intros [= <-]. by eapply in_out_year_abort.
Qed.

End Run.

Lemma main_no_payment_witness :
  main remove_dups Demo.cfg_no_files ∅ 2023 = Abort (Raised IndexError).
Proof.
  apply (main_no_payment remove_dups Demo.cfg_no_files ∅ 2023 initial_state).
  - reflexivity.
  - reflexivity.
Defined.


Lemma main_no_amount_witness :
  main remove_dups Demo.cfg_one_file Demo.fs_no_amount 2023
  = Abort (Raised TypeError).
Proof.
  apply (main_no_amount remove_dups Demo.cfg_one_file Demo.fs_no_amount 2023
           (process_all_input_files Demo.cfg_one_file Demo.fs_no_amount
              initial_state).1
           (default Payment_init
              (head (ALL_PAYMENTS
                       (process_all_input_files Demo.cfg_one_file
                          Demo.fs_no_amount initial_state).1)))).
  - vm_compute. reflexivity.
  - vm_compute. by left.
  - vm_compute. reflexivity.
Defined.

(** * Splitting the text of a file *)

Lemma str_app_cons (x : ascii) (a b : string) :
  String x a +:+ b = String x (a +:+ b).
Proof. reflexivity. Qed.

Lemma str_app_assoc (a b c : string) : (a +:+ b) +:+ c = a +:+ b +:+ c.
Proof.
  induction a as [|x a IH]; [done|]. by rewrite !str_app_cons, IH.
Qed.

Lemma str_app_nil_r (a : string) : a +:+ "" = a.
Proof. induction a as [|x a IH]; [done|]. by rewrite str_app_cons, IH. Qed.

Lemma str_length_app (a b : string) :
  String.length (a +:+ b) = (String.length a + String.length b)%nat.
Proof.
  induction a as [|x a IH]; [done|]. rewrite str_app_cons. simpl.
  by rewrite IH.
Qed.

(** While the rest of a separator is skipped nothing is emitted. *)
Lemma split_scan_skip (sep pre rest cur : string) :
  Py.split_scan sep (pre +:+ rest) (String.length pre) cur
  = Py.split_scan sep rest 0 cur.
Proof. induction pre as [|c pre IH]; [done|]. simpl. apply IH. Qed.

Lemma split_scan_join (sep : string) (n : nat) (s cur : string) :
  sep ≠ "" → (String.length s ≤ n)%nat →
  Py.split_scan sep s 0 cur ≠ [] ∧
  join sep (Py.split_scan sep s 0 cur) = cur +:+ s.
Proof.
  intros Hsep. revert s cur.
  induction n as [|n IH]; intros s cur Hn.
  - destruct s; [|simpl in Hn; lia]. simpl. by rewrite str_app_nil_r.
  - destruct s as [|c s']; [simpl; by rewrite str_app_nil_r|].
    cbn [Py.split_scan].
    destruct (Py.startswith sep (String c s')) eqn:Hstart.
    + apply startswith_spec in Hstart as [post Hpost].
      destruct sep as [|a sep']; [done|].
      injection Hpost as -> ->.
      replace (String.length (String a sep') - 1)%nat
        with (String.length sep') by (simpl; lia).
      rewrite split_scan_skip.
      destruct (IH post "") as [Hne Hjoin].
      { simpl in Hn. rewrite str_length_app in Hn. lia. }
      split; [done|].
      destruct (Py.split_scan (String a sep') post 0 "") as [|x l] eqn:Hl;
        [done|].
      change (join (String a sep') (cur :: x :: l))
        with (cur +:+ String a sep' +:+ join (String a sep') (x :: l)).
      rewrite Hjoin. reflexivity.
    + destruct (IH s' (cur +:+ String c "")) as [Hne Hjoin];
        [simpl in Hn; lia|].
      split; [done|]. rewrite Hjoin. by rewrite str_app_assoc.
Qed.

(** X22.  Splitting at a separator that is not empty gives at least one
    piece, and the pieces joined by the separator are the text again: a
    file always has a header row, and no character of it is dropped when
    it is cut into rows and a row into fields. *)
Theorem split_join (sep s : string) :
  sep ≠ "" →
  ∃ pieces, Py.split sep s = Ok pieces ∧ pieces ≠ [] ∧ join sep pieces = s.
Proof.
  intros Hsep. destruct (split_scan_join sep (String.length s) s "" Hsep)
    as [Hne Hjoin]; [done|].
  exists (Py.split_scan sep s 0 ""). split_and!; [|done..].
  unfold Py.split. by destruct sep.
Qed.

Lemma split_join_witness :
  ∃ pieces, Py.split ";" "a;;b;" = Ok pieces ∧ pieces ≠ [] ∧
            join ";" pieces = "a;;b;".
Proof. by apply (split_join ";" "a;;b;"). Defined.

(** X23.  Once the input files are ingested, a search for the payments
    without a category finds none. *)
Theorem search_uncategorised (cfg : Config) (fs : gmap string string)
    (st : state) :
  process_all_input_files cfg fs initial_state = (st, Ok ()) →
  search (λ p, bool_decide (category p = None)) st = ([], 0%nat).
Proof.
  intros Hrun.
  destruct (process_files_ingested _ _ _ _ _ initial_state_consistent
              (Forall_nil_2 _) Hrun) as (_ & Hcat & _).
  unfold search.
  assert (filter (λ p, bool_decide (category p = None) = true)
                 (ALL_PAYMENTS st) = []) as ->; [|done].
  induction Hcat as [|p l [c Hc] _ IH]; [done|].
  rewrite filter_cons_False; [done|]. by rewrite Hc.
Qed.

Lemma search_uncategorised_witness :
  search (λ p, bool_decide (category p = None))
         (process_all_input_files Demo.cfg_one_file Demo.fs_one_file
            initial_state).1
  = ([], 0%nat).
Proof.
  apply (search_uncategorised Demo.cfg_one_file Demo.fs_one_file).
  vm_compute. reflexivity.
Defined.
